(** * Chunking and metadata tagging of the finance RAG pipeline

    A shallow embedding of [TextChunker] (rag/chunking.py) and of
    [extract_metadata] (vector.py), and the properties their specification
    states about them.

    Python values are modelled as follows.
    - [str] is a list of characters.  A character is an [ascii] holding a code
      point below 128: [str.isspace], [str.lower], [str.upper] and the regex
      classes [\s], [\d] and [[a-z]] are given on that range.
    - [int] is [Z]; [len] is the list length seen as a [Z].
    - a [dict] filled key by key is a [gmap] from key to [value]; the chunk
      records, built in one literal with fixed keys, are a [Record].
    - a [pathlib.Path] is the list of its components below the anchor. *)

From Stdlib Require Import ZArith Lia List Ascii String Bool.
From stdpp Require Import gmap strings list.
Import ListNotations.

Local Open Scope Z_scope.

(** ** Strings *)

Module Str.

Definition str := list ascii.

(** A literal of the source. *)
Definition py (s : string) : str := list_ascii_of_string s.

Definition len (s : str) : Z := Z.of_nat (length s).

Definition code (c : ascii) : N := N_of_ascii c.

Definition in_range (lo hi : N) (c : ascii) : bool :=
  ((lo <=? code c) && (code c <=? hi))%N.

(** [str.isspace] on one character, which is also the regex class [\s]:
    TAB, LF, VT, FF, CR, the separators FS, GS, RS, US, and the space. *)
Definition is_space (c : ascii) : bool :=
  in_range 9 13 c || in_range 28 32 c.

Definition is_digit (c : ascii) : bool := in_range 48 57 c.
Definition is_upper (c : ascii) : bool := in_range 65 90 c.
Definition is_lower (c : ascii) : bool := in_range 97 122 c.
Definition is_alpha (c : ascii) : bool := is_upper c || is_lower c.

Definition chr (n : N) : ascii := ascii_of_N n.

Definition lower_char (c : ascii) : ascii :=
  if is_upper c then chr (code c + 32) else c.
Definition upper_char (c : ascii) : ascii :=
  if is_lower c then chr (code c - 32) else c.

Definition lower (s : str) : str := map lower_char s.
Definition upper (s : str) : str := map upper_char s.

Definition eqb_char (a b : ascii) : bool := Ascii.eqb a b.

Fixpoint eqb (s t : str) : bool :=
  match s, t with
  | [], [] => true
  | a :: s', b :: t' => eqb_char a b && eqb s' t'
  | _, _ => false
  end.

(** The truth value of a string: non-empty. *)
Definition truthy (s : str) : bool :=
  match s with [] => false | _ :: _ => true end.

Fixpoint lstrip (s : str) : str :=
  match s with
  | c :: s' => if is_space c then lstrip s' else s
  | [] => []
  end.

Definition rstrip (s : str) : str := rev (lstrip (rev s)).

(** [s.strip()] *)
Definition strip (s : str) : str := rstrip (lstrip s).

(** The truth value of a list: non-empty. *)
Definition truthy_list {A} (l : list A) : bool :=
  match l with [] => false | _ :: _ => true end.

(** [s.startswith(p)] *)
Fixpoint startswith (s p : str) : bool :=
  match p, s with
  | [], _ => true
  | a :: p', b :: s' => eqb_char a b && startswith s' p'
  | _ :: _, [] => false
  end.

(** [p in s] *)
Fixpoint contains (s p : str) : bool :=
  startswith s p ||
  match s with
  | [] => false
  | _ :: s' => contains s' p
  end.

(** [s.replace(a, b)] for one-character [a] and [b]. *)
Definition replace_char (a b : ascii) (s : str) : str :=
  map (fun c => if eqb_char c a then b else c) s.

(** [s.split(sep)] for a one-character separator. *)
Fixpoint split_char (sep : ascii) (s : str) : list str :=
  match s with
  | [] => [[]]
  | c :: s' =>
      if eqb_char c sep then [] :: split_char sep s'
      else match split_char sep s' with
           | piece :: rest => (c :: piece) :: rest
           | [] => [[c]]
           end
  end.

(** [s.rfind(c)] for one character: the last index of [c], or [-1]. *)
Fixpoint rfind_from (c : ascii) (i : Z) (s : str) (found : Z) : Z :=
  match s with
  | [] => found
  | d :: s' => rfind_from c (i + 1) s' (if eqb_char d c then i else found)
  end.

Definition rfind (c : ascii) (s : str) : Z := rfind_from c 0 s (-1).

(** [s[-n:]] for [n > 0]: the last [n] characters, all of [s] when shorter. *)
Definition last_chars (n : Z) (s : str) : str :=
  drop (length s - Z.to_nat n) s.

(** [s[:n]] for [n >= 0]. *)
Definition first_chars (n : Z) (s : str) : str := take (Z.to_nat n) s.

(** [int(s)] on a string of decimal digits, as the unbounded conversion (the
    interpreter refuses strings of more digits than a configurable limit,
    4300 unless changed; file names do not reach it). *)
Definition int_of_digits (s : str) : Z :=
  fold_left (fun acc c => 10 * acc + Z.of_N (code c - 48)) s 0.

End Str.

Import Str.

(** ** Regular expressions

    The patterns of the two modules quantify character classes only, so the
    syntax has a quantified class instead of a general repetition.  The
    matcher lists the ways a pattern matches a prefix of the subject in the
    order in which the backtracking engine of [re] tries them: a greedy
    quantifier from its longest to its shortest run, an alternation from left
    to right.  The engine returns the first. *)

Module Re.

Inductive regex :=
| Eps
| Chr (p : ascii -> bool)
| Rep (p : ascii -> bool) (lo : nat) (hi : option nat)
| Seq (r1 r2 : regex)
| Alt (r1 r2 : regex)
| Group (r : regex).

Fixpoint run_len (p : ascii -> bool) (s : str) : nat :=
  match s with
  | c :: s' => if p c then S (run_len p s') else O
  | [] => O
  end.

Definition cap (hi : option nat) (n : nat) : nat :=
  match hi with Some h => Nat.min h n | None => n end.

(** A way of matching: the text matched, the groups captured (outermost
    first) and the rest of the subject. *)
Definition result : Type := str * list str * str.

Definition rep_results (p : ascii -> bool) (lo : nat) (hi : option nat)
    (s : str) : list result :=
  let n := cap hi (run_len p s) in
  map (fun k => (take k s, [], drop k s)) (rev (seq lo (S n - lo))).

Fixpoint rmatch (r : regex) (s : str) : list result :=
  match r with
  | Eps => [([], [], s)]
  | Chr p =>
      match s with
      | c :: s' => if p c then [([c], [], s')] else []
      | [] => []
      end
  | Rep p lo hi => rep_results p lo hi s
  | Seq r1 r2 =>
      flat_map (fun '(m1, g1, s1) =>
                  map (fun '(m2, g2, s2) => (m1 ++ m2, g1 ++ g2, s2))
                      (rmatch r2 s1))
               (rmatch r1 s)
  | Alt r1 r2 => rmatch r1 s ++ rmatch r2 s
  | Group r' => map (fun '(m, g, s') => (m, m :: g, s')) (rmatch r' s)
  end.

(** A match object: what precedes the match, [group(0)], the captured
    groups, and what follows. *)
Record match_obj := {
  before : str;
  group0 : str;
  groups : list str;
  after : str
}.

(** [re.match(r, s)] *)
Definition re_match (r : regex) (s : str) : option match_obj :=
  match rmatch r s with
  | (m, g, s') :: _ => Some {| before := []; group0 := m; groups := g; after := s' |}
  | [] => None
  end.

Definition shift (c : ascii) (m : match_obj) : match_obj :=
  {| before := c :: before m; group0 := group0 m;
     groups := groups m; after := after m |}.

(** [re.search(r, s)]: the first match at the leftmost position that has one. *)
Fixpoint re_search (r : regex) (s : str) : option match_obj :=
  match re_match r s with
  | Some m => Some m
  | None =>
      match s with
      | [] => None
      | c :: s' => option_map (shift c) (re_search r s')
      end
  end.

(** [re.split(r, s)] for a pattern without groups whose matches are not
    empty: the loop of the engine, one search per round. *)
Fixpoint re_split_loop (rounds : nat) (r : regex) (s : str) : list str :=
  match rounds with
  | O => [s]
  | S n =>
      match re_search r s with
      | Some m => before m :: re_split_loop n r (after m)
      | None => [s]
      end
  end.

(** Every round consumes a character, so [length s] rounds are enough
    (lemma [re_split_loop_enough]). *)
Definition re_split (r : regex) (s : str) : list str :=
  re_split_loop (length s) r s.

(** Literals and classes. *)
Definition is_char (c : ascii) : ascii -> bool := fun x => eqb_char x c.
Definition is_char_ci (c : ascii) : ascii -> bool :=
  fun x => eqb_char (lower_char x) (lower_char c).
Definition one_of (cs : str) : ascii -> bool :=
  fun x => existsb (eqb_char x) cs.

(** A literal under [re.IGNORECASE]. *)
Definition lit_ci (s : str) : regex :=
  fold_right (fun c r => Seq (Chr (is_char_ci c)) r) Eps s.

Fixpoint alts (rs : list regex) : regex :=
  match rs with
  | [] => Chr (fun _ => false)
  | [r] => r
  | r :: rs' => Alt r (alts rs')
  end.

End Re.

Import Re.

(** ** rag/chunking.py: [TextChunker] *)

Module Chunking.

(** [TextChunker.__init__]: the two attributes of the object. *)
Record TextChunker := {
  chunk_size : Z;
  chunk_overlap : Z
}.

(** The pattern [[.!?]+\s+] of [chunk_by_sentences]. *)
Definition is_punct : ascii -> bool := one_of (py ".!?").
Definition sentence_delim : regex :=
  Seq (Rep is_punct 1 None) (Rep is_space 1 None).

(** The state of the loop of [chunk_by_sentences]: [chunks] and
    [current_chunk]. *)
Definition sent_state : Type := list str * str.

(** One round of the loop over [sentences]. *)
Definition sentence_step (self : TextChunker) (st : sent_state)
    (sentence : str) : sent_state :=
  let '(chunks, current_chunk) := st in
  let sentence := strip sentence in
  if negb (truthy sentence) then st
  else if len current_chunk + len sentence >? chunk_size self then
    let chunks :=
      if truthy current_chunk then chunks ++ [strip current_chunk]
      else chunks in
    if truthy_list chunks && (chunk_overlap self >? 0) then
      let overlap_text := last_chars (chunk_overlap self) current_chunk in
      (chunks, overlap_text ++ py " " ++ sentence)
    else (chunks, sentence)
  else
    (chunks,
     current_chunk ++
       (if truthy current_chunk then py " " ++ sentence else sentence)).

(** What follows the loop: the remaining buffer is the last chunk. *)
Definition sentence_finish (st : sent_state) : list str :=
  let '(chunks, current_chunk) := st in
  if truthy current_chunk then chunks ++ [strip current_chunk] else chunks.

Definition chunk_sentences (self : TextChunker) (sentences : list str)
    : list str :=
  sentence_finish (fold_left (sentence_step self) sentences ([], [])).

Definition chunk_by_sentences (self : TextChunker) (text : str) : list str :=
  chunk_sentences self (re_split sentence_delim text).

(** A record of [chunk_by_sections]. *)
Record section_chunk := {
  text : str;
  section_title : str;
  chunk_index : Z;
  total_chunks : Z
}.

Definition default_markers : list str :=
  [py "Section"; py "Chapter"; py "Rule"; py "Clause";
   py "Subsection"; py "Para"; py "Article"].

(** The pattern [^\d+\.], used with [re.match], which anchors at the
    beginning, where [^] holds. *)
Definition numbered : regex := Seq (Rep is_digit 1 None) (Chr (is_char ".")).

Definition is_section_header (section_markers : list str) (line : str) : bool :=
  existsb (fun marker => startswith (lower line) (lower marker)) section_markers
  || bool_decide (is_Some (re_match numbered line)).

(** [enumerate] from a given index. *)
Fixpoint enumerate_from {A} (i : Z) (l : list A) : list (Z * A) :=
  match l with
  | [] => []
  | x :: l' => (i, x) :: enumerate_from (i + 1) l'
  end.

(** The records appended for one section. *)
Definition section_records (self : TextChunker) (current_section current_title : str)
    : list section_chunk :=
  let section_chunks := chunk_by_sentences self current_section in
  map (fun '(i, chunk) =>
         {| text := chunk; section_title := current_title;
            chunk_index := i;
            total_chunks := Z.of_nat (length section_chunks) |})
      (enumerate_from 0 section_chunks).

(** The state of the loop of [chunk_by_sections]: [chunks],
    [current_section] and [current_title]. *)
Definition sect_state : Type := list section_chunk * str * str.

Definition line_step (self : TextChunker) (section_markers : list str)
    (st : sect_state) (line : str) : sect_state :=
  let '(chunks, current_section, current_title) := st in
  let line := strip line in
  if negb (truthy line) then st
  else if is_section_header section_markers line && truthy current_section then
    (chunks ++ section_records self current_section current_title,
     line, first_chars 100 line)
  else (chunks, current_section ++ py (String "010" "") ++ line, current_title).

Definition line_finish (self : TextChunker) (st : sect_state)
    : list section_chunk :=
  let '(chunks, current_section, current_title) := st in
  if truthy current_section
  then chunks ++ section_records self current_section current_title
  else chunks.

Definition chunk_by_sections (self : TextChunker) (text : str)
    (section_markers : option (list str)) : list section_chunk :=
  let section_markers :=
    match section_markers with
    | None => default_markers
    | Some ms => ms
    end in
  line_finish self
    (fold_left (line_step self section_markers)
               (split_char "010" text)
               ([], [], py "Introduction")).

End Chunking.

Import Chunking.

(** ** vector.py: [extract_metadata] *)

Module Vector.

(** The values the metadata dictionary holds. *)
Inductive value :=
| VNone
| VStr (s : str)
| VInt (n : Z).

(** A [pathlib.Path]: its components below the anchor, outermost first. *)
Definition Path : Type := list str.

(** [p.name]: the final component, empty when there is none. *)
Definition name (p : Path) : str := List.last p [].

(** [p.parent] *)
Definition parent (p : Path) : Path := removelast p.

(** [p.stem]: the name without its last suffix, that is up to its last dot
    when that dot is neither the first nor the last character of the name. *)
Definition stem (p : Path) : str :=
  let name := name p in
  let i := rfind "." name in
  if (0 <? i) && (i <? len name - 1) then first_chars i name else name.

(** [m.group(i)] for [i >= 1]. *)
Definition group (i : nat) (m : match_obj) : str := nth (i - 1) (groups m) [].

(** [for\s+([A-Za-z ]+)] under [re.IGNORECASE]. *)
Definition audience_re : regex :=
  Seq (lit_ci (py "for"))
      (Seq (Rep is_space 1 None)
           (Group (Rep (fun c => is_alpha c || eqb_char c " ") 1 None))).

(** [PPT-(\d+)] under [re.IGNORECASE]. *)
Definition ppt_re : regex :=
  Seq (lit_ci (py "PPT-")) (Group (Rep is_digit 1 None)).

Definition months : list str :=
  [py "Jan"; py "Feb"; py "Mar"; py "Apr"; py "May"; py "Jun";
   py "Jul"; py "Aug"; py "Sep"; py "Oct"; py "Nov"; py "Dec"].

(** [(Jan|Feb|...|Dec)[a-z]*[ _-]?\d{2,4}] under [re.IGNORECASE]. *)
Definition date_re : regex :=
  Seq (Group (alts (map lit_ci months)))
      (Seq (Rep is_alpha 0 None)
           (Seq (Rep (one_of (py " _-")) 0 (Some 1%nat))
                (Rep is_digit 2 (Some 4%nat)))).

(** The dictionary [extract_metadata] starts from. *)
Definition default_metadata (file_path : Path) : gmap string value :=
  list_to_map
    [("source", VStr (upper (name (parent file_path))));
     ("category", VStr (py "Other"));
     ("topic", VStr (replace_char "-" " " (replace_char "_" " " (stem file_path))));
     ("audience", VStr (py "General"));
     ("ppt_id", VNone);
     ("date", VNone);
     ("filename", VStr (name file_path));
     ("page_number", VNone)]%string.

Definition rbi_patterns (filename : str) (metadata : gmap string value)
    : gmap string value :=
  if contains (upper filename) (py "FINANCIAL LITERACY") then
    let metadata := <["category"%string := VStr (py "Literacy")]> metadata in
    match re_search audience_re filename with
    | Some m => <["audience"%string := VStr (strip (group 1 m))]> metadata
    | None => metadata
    end
  else if contains filename (py "Financing needs") then
    <["topic"%string :=
        VStr (py "Financing Needs of Micro and Small Enterprises")]>
      (<["category"%string := VStr (py "Guide")]> metadata)
  else metadata.

Definition sebi_patterns (filename : str) (metadata : gmap string value)
    : gmap string value :=
  if startswith (upper filename) (py "PPT-") then
    let metadata := <["category"%string := VStr (py "PPT")]> metadata in
    let metadata :=
      match re_match ppt_re filename with
      | Some m => <["ppt_id"%string := VInt (int_of_digits (group 1 m))]> metadata
      | None => metadata
      end in
    match re_search date_re filename with
    | Some date_match => <["date"%string := VStr (group0 date_match)]> metadata
    | None => metadata
    end
  else if contains filename (py "Mutual-Fund")
          || contains (lower filename) (py "beginners") then
    let metadata := <["category"%string := VStr (py "Guide")]> metadata in
    if contains filename (py "Beginners") then
      <["audience"%string := VStr (py "Beginners")]> metadata
    else if contains filename (py "Advance") then
      <["audience"%string := VStr (py "Advanced")]> metadata
    else if contains (lower filename) (py "intermediate") then
      <["audience"%string := VStr (py "Intermediate")]> metadata
    else metadata
  else if contains filename (py "Booklet") then
    <["category"%string := VStr (py "Booklet")]> metadata
  else if contains (lower filename) (py "brochure") then
    <["category"%string := VStr (py "Brochure")]> metadata
  else metadata.

Definition amfi_patterns (filename : str) (metadata : gmap string value)
    : gmap string value :=
  if contains filename (py "Strategy") then
    <["category"%string := VStr (py "Report")]> metadata
  else if contains filename (py "NAVAll") then
    <["category"%string := VStr (py "Data")]> metadata
  else metadata.

(** [extract_metadata]; the record is also printed, an effect that the
    embedding leaves out. *)
Definition extract_metadata (file_path : Path) : gmap string value :=
  let filename := name file_path in
  let folder := upper (name (parent file_path)) in
  let metadata := default_metadata file_path in
  if eqb folder (py "RBI") then rbi_patterns filename metadata
  else if eqb folder (py "SEBI") then sebi_patterns filename metadata
  else if eqb folder (py "AMFI") then amfi_patterns filename metadata
  else metadata.

End Vector.

Import Vector.

(** ** rag/embedding.py: [EmbeddingGenerator]

    The two back ends are calls out of the repository: they are taken as
    they answer, an embedding (or one per text) or an exception.  An array of
    embeddings is the list of its rows, the rows being of one shape (what
    [np.array] needs to build the array row by row). *)

Module Embedding.

(** [range(start, stop, step)]; [None] is the [ValueError] of a zero step. *)
Definition py_range (start stop step : Z) : option (list Z) :=
  if step =? 0 then None
  else
    let count :=
      if step >? 0 then (stop - start + step - 1) / step
      else (start - stop - step - 1) / (- step) in
    Some (map (fun k => start + Z.of_nat k * step) (seq 0 (Z.to_nat count))).

(** A bound of a slice of a sequence of [n] items. *)
Definition slice_bound (n i : Z) : Z :=
  if i <? 0 then Z.max 0 (n + i) else Z.min i n.

(** [l[lo:hi]] *)
Definition py_slice {A} (lo hi : Z) (l : list A) : list A :=
  let n := Z.of_nat (length l) in
  let a := slice_bound n lo in
  let b := slice_bound n hi in
  take (Z.to_nat (b - a)) (drop (Z.to_nat a) l).

Section Backends.

(** An embedding. *)
Variable emb : Type.

(** [self.model.encode(batch, show_progress_bar=False)]: the embeddings of
    the batch, or an exception. *)
Variable encode : list str -> option (list emb).

(** [openai.Embedding.create(input=..., model=...)] followed by
    [response['data'][0]['embedding']]: an embedding, or an exception. *)
Variable openai_embedding : str -> option emb.

(** What [__init__] leaves in the object that the methods read. *)
Record EmbeddingGenerator := {
  use_openai : bool
}.

(** One round of the loop of [_embed_with_sentence_transformers]; [None] is
    an exception raised in this round or before. *)
Definition encode_round (texts : list str) (batch_size : Z)
    (all_embeddings : option (list emb)) (i : Z) : option (list emb) :=
  match all_embeddings with
  | None => None
  | Some all_embeddings =>
      let batch := py_slice i (i + batch_size) texts in
      match encode batch with
      | None => None
      | Some batch_embeddings => Some (all_embeddings ++ batch_embeddings)
      end
  end.

(** The body of the [try]. *)
Definition encode_batches (texts : list str) (batch_size : Z)
    : option (list emb) :=
  match py_range 0 (Z.of_nat (length texts)) batch_size with
  | None => None
  | Some indices =>
      fold_left (encode_round texts batch_size) indices (Some [])
  end.

(** [_embed_with_sentence_transformers]: any exception gives the empty
    array. *)
Definition embed_with_sentence_transformers (texts : list str)
    (batch_size : Z) : list emb :=
  match encode_batches texts batch_size with
  | Some all_embeddings => all_embeddings
  | None => []
  end.

(** One round of the loop of [_embed_with_openai]. *)
Definition openai_round (all_embeddings : option (list emb)) (text : str)
    : option (list emb) :=
  match all_embeddings with
  | None => None
  | Some all_embeddings =>
      match openai_embedding (first_chars 8000 text) with
      | None => None
      | Some embedding => Some (all_embeddings ++ [embedding])
      end
  end.

(** [_embed_with_openai] *)
Definition embed_with_openai (texts : list str) : list emb :=
  match fold_left openai_round texts (Some []) with
  | Some all_embeddings => all_embeddings
  | None => []
  end.

(** [embed_texts] *)
Definition embed_texts (self : EmbeddingGenerator) (texts : list str)
    (batch_size : Z) : list emb :=
  if negb (truthy_list texts) then []
  else if use_openai self then embed_with_openai texts
  else embed_with_sentence_transformers texts batch_size.

End Backends.

End Embedding.

Import Embedding.

(** ** Vocabulary of the specification *)

Module Spec.

(** A string that starts with a character that is not whitespace, and a
    string with no whitespace at either end. *)
Definition head_nonspace (s : str) : bool :=
  match s with
  | c :: _ => negb (is_space c)
  | [] => false
  end.

Definition clean (s : str) : bool :=
  head_nonspace s && head_nonspace (rev s).

Definition all_space (s : str) : bool := forallb is_space s.

(** The sentences the assembler sees: the pieces of the split, trimmed, the
    empty ones dropped. *)
Definition sentences_of (pieces : list str) : list str :=
  List.filter truthy (map strip pieces).

Definition sentences (text : str) : list str :=
  sentences_of (re_split sentence_delim text).

(** A delimiter: a run of [.], [!] or [?] followed by a run of whitespace. *)
Definition is_delim (d : str) : Prop :=
  exists a b, d = a ++ b /\ a <> [] /\ b <> [] /\
              forallb is_punct a = true /\ all_space b = true.

(** Pieces put back together with the delimiters between them. *)
Fixpoint interleave (pieces delims : list str) : str :=
  match pieces, delims with
  | p :: ps, d :: ds => p ++ d ++ interleave ps ds
  | p :: _, [] => p
  | [], _ => []
  end.

(** Sentences joined by single spaces. *)
Fixpoint join (ss : list str) : str :=
  match ss with
  | [] => []
  | [s] => s
  | s :: ss' => s ++ py " " ++ join ss'
  end.

(** A chunk taken apart: the overlap injected in front of it (with the space
    that separates it from the first sentence) and the sentences it packs. *)
Record part := {
  overlap : str;
  group : list str
}.

(** The buffer of a chunk before it is trimmed, and the chunk. *)
Definition buffer (p : part) : str := overlap p ++ join (group p).
Definition render (p : part) : str := lstrip (overlap p) ++ join (group p).

(** The overlap injected in front of a chunk that follows [prev]. *)
Definition injected (self : TextChunker) (prev : option part) : str :=
  match prev with
  | None => []
  | Some p =>
      if chunk_overlap self >? 0
      then last_chars (chunk_overlap self) (buffer p) ++ py " "
      else []
  end.

(** Every part carries the overlap injected after the part before it. *)
Definition linked (self : TextChunker) (parts : list part) : Prop :=
  forall i q, parts !! i = Some q ->
    overlap q = injected self (match i with O => None | S j => parts !! j end).

Definition part_ok (p : part) : Prop :=
  group p <> [] /\ Forall (fun s => clean s = true) (group p).

(** The records of one section, from its title and its chunks. *)
Definition block (title : str) (cs : list str) : list section_chunk :=
  map (fun '(i, chunk) =>
         {| text := chunk; section_title := title; chunk_index := i;
            total_chunks := Z.of_nat (length cs) |})
      (enumerate_from 0 cs).

(** The records of a sequence of sections, each a title and its chunks. *)
Definition blocks_of (bs : list (str * list str)) : list section_chunk :=
  flat_map (fun b => block (fst b) (snd b)) bs.

(** The lines that count: trimmed, the blank ones dropped. *)
Definition content_lines (text : str) : list str :=
  List.filter truthy (map strip (split_char "010" text)).

(** The body of a document that is one section: every line that counts,
    each after a line feed. *)
Definition body_of (text : str) : str :=
  flat_map (fun line => py (String "010" "") ++ line) (content_lines text).

(** The heuristics of [extract_metadata]: does one of them apply to the file
    name under this folder? *)
Definition heuristic_matches (folder filename : str) : bool :=
  if eqb folder (py "RBI") then
    contains (upper filename) (py "FINANCIAL LITERACY")
    || contains filename (py "Financing needs")
  else if eqb folder (py "SEBI") then
    startswith (upper filename) (py "PPT-")
    || contains filename (py "Mutual-Fund")
    || contains (lower filename) (py "beginners")
    || contains filename (py "Booklet")
    || contains (lower filename) (py "brochure")
  else if eqb folder (py "AMFI") then
    contains filename (py "Strategy") || contains filename (py "NAVAll")
  else false.

(** The eight keys of a metadata dictionary. *)
Definition metadata_keys : gset string :=
  list_to_set ["source"; "category"; "topic"; "audience"; "ppt_id"; "date";
               "filename"; "page_number"]%string.

(** What holds between two rounds of the loop of [chunk_by_sentences], once
    the sentences [sents] went in: nothing was seen yet, or the chunks closed
    so far and the buffer are parts that pack [sents] in order. *)
Definition loop_inv (self : TextChunker) (sents : list str) (st : sent_state) : Prop :=
  (sents = [] /\ st = ([], [])) \/
  exists ps p,
    linked self (ps ++ [p]) /\ Forall part_ok (ps ++ [p]) /\
    concat (map group (ps ++ [p])) = sents /\
    st = (map render ps, buffer p).

End Spec.

Import Spec.

(** ** Further vocabulary *)

Module More.



(** The records start with a record of the section "Introduction". *)
Definition starts_with_introduction (chunks : list section_chunk) : Prop :=
  exists r rest,
    chunks = r :: rest /\ section_title r = py "Introduction" /\
    chunk_index r = 0 /\ 1 <= total_chunks r.

(** What holds between two rounds of the loop over the lines [seen]. *)
Definition lines_inv (seen : list str) (st : sect_state) : Prop :=
  let '(chunks, cur, title) := st in
  (sentences_of seen = [] /\ chunks = [] /\ cur = [] /\
   title = py "Introduction")
  \/
  (sentences_of seen <> [] /\ head_nonspace (rev cur) = true /\
   ((chunks = [] /\ title = py "Introduction")
    \/ starts_with_introduction chunks)).

(** The titles a text can give: "Introduction", or the first 100 characters
    of a line that counts and is a header. *)
Definition title_of (ms : list str) (text : str) (title : str) : Prop :=
  title = py "Introduction" \/
  exists line, In line (content_lines text) /\
               is_section_header ms line = true /\
               title = first_chars 100 line.

(** The categories and the audiences [extract_metadata] writes itself. *)
Definition categories : list str :=
  [py "Other"; py "Literacy"; py "Guide"; py "PPT"; py "Booklet";
   py "Brochure"; py "Report"; py "Data"].

Definition audiences : list str :=
  [py "General"; py "Beginners"; py "Advanced"; py "Intermediate"].

(** A string of letters and spaces. *)
Definition letters_and_spaces (s : str) : bool :=
  forallb (fun c => is_alpha c || eqb_char c " ") s.

End More.

Import More.

(** * Properties *)

(** ** Facts about strings *)

Section StrFacts.

Lemma eqb_char_eq a b : eqb_char a b = true <-> a = b.
Proof. apply Ascii.eqb_eq. Qed.

Lemma eqb_eq s t : eqb s t = true <-> s = t.
Proof.
  revert t. induction s as [|a s IH]; intros [|b t]; simpl; try easy.
  rewrite andb_true_iff, eqb_char_eq, IH. split.
  - intros [-> ->]. reflexivity.
  - intros [= -> ->]. auto.
Qed.

Lemma eqb_neq s t : s <> t -> eqb s t = false.
Proof.
  intros H. destruct (eqb s t) eqn:E; [|reflexivity].
  apply eqb_eq in E. contradiction.
Qed.

Lemma truthy_true s : truthy s = true <-> s <> [].
Proof. destruct s; simpl; split; congruence. Qed.

Lemma truthy_false s : truthy s = false <-> s = [].
Proof. destruct s; simpl; split; congruence. Qed.

Lemma head_nonspace_nonempty s : head_nonspace s = true -> s <> [].
Proof. destruct s; simpl; congruence. Qed.

Lemma head_nonspace_app s t :
  head_nonspace s = true -> head_nonspace (s ++ t) = true.
Proof. destruct s; simpl; congruence. Qed.

Lemma clean_nonempty s : clean s = true -> s <> [].
Proof.
  unfold clean. intros H. apply andb_true_iff in H as [H _].
  now apply head_nonspace_nonempty.
Qed.

Lemma clean_head s : clean s = true -> head_nonspace s = true.
Proof. unfold clean. intros H. now apply andb_true_iff in H as [H _]. Qed.

Lemma clean_last s : clean s = true -> head_nonspace (rev s) = true.
Proof. unfold clean. intros H. now apply andb_true_iff in H as [_ H]. Qed.

Lemma lstrip_head s : lstrip s = [] \/ head_nonspace (lstrip s) = true.
Proof.
  induction s as [|c s IH]; simpl; [now left|].
  destruct (is_space c) eqn:E; [exact IH|].
  right. simpl. now rewrite E.
Qed.

Lemma lstrip_id s : head_nonspace s = true -> lstrip s = s.
Proof.
  destruct s as [|c s]; simpl; [reflexivity|].
  destruct (is_space c); simpl; congruence.
Qed.

Lemma lstrip_all_space s : all_space s = true -> lstrip s = [].
Proof.
  induction s as [|c s IH]; simpl; [reflexivity|].
  destruct (is_space c); simpl; [exact IH|discriminate].
Qed.

(** What [lstrip] removes is whitespace. *)
Lemma lstrip_split s :
  exists ws, s = ws ++ lstrip s /\ all_space ws = true.
Proof.
  induction s as [|c s [ws [H1 H2]]]; simpl.
  - exists []. auto.
  - destruct (is_space c) eqn:E.
    + exists (c :: ws). simpl. rewrite E, H2. split; [now f_equal|reflexivity].
    + exists []. auto.
Qed.

Lemma lstrip_app_head s t :
  head_nonspace t = true -> lstrip (s ++ t) = lstrip s ++ t.
Proof.
  intros H. induction s as [|c s IH]; simpl.
  - now apply lstrip_id.
  - destruct (is_space c); [exact IH|reflexivity].
Qed.

Lemma lstrip_app_nonempty s t :
  lstrip s <> [] -> lstrip (s ++ t) = lstrip s ++ t.
Proof.
  induction s as [|c s IH]; simpl; [congruence|].
  destruct (is_space c); [exact IH|reflexivity].
Qed.

Lemma lstrip_space_app ws t :
  all_space ws = true -> lstrip (ws ++ t) = lstrip t.
Proof.
  induction ws as [|c ws IH]; simpl; [reflexivity|].
  destruct (is_space c); simpl; [exact IH|discriminate].
Qed.

Lemma lstrip_last_nonempty s :
  head_nonspace (rev s) = true -> lstrip s <> [].
Proof.
  intros H. destruct (lstrip_split s) as [ws [E Hws]].
  intros Hn. rewrite Hn, app_nil_r in E. subst s.
  destruct (rev ws) as [|c r] eqn:Er; simpl in H; [discriminate|].
  assert (Hc : In c ws) by (apply in_rev; rewrite Er; now left).
  unfold all_space in Hws. rewrite forallb_forall in Hws.
  rewrite (Hws c Hc) in H. discriminate.
Qed.

Lemma rstrip_id s : head_nonspace (rev s) = true -> rstrip s = s.
Proof.
  intros H. unfold rstrip. rewrite (lstrip_id _ H). apply rev_involutive.
Qed.

(** The head of the string survives [rstrip] when something does. *)
Lemma rstrip_head s :
  head_nonspace s = true -> rstrip s <> [] -> head_nonspace (rstrip s) = true.
Proof.
  unfold rstrip. intros H Hn.
  destruct (lstrip_split (rev s)) as [ws [E _]].
  apply (f_equal (@rev ascii)) in E. rewrite rev_involutive, rev_app_distr in E.
  destruct (rev (lstrip (rev s))) as [|c r]; [congruence|].
  rewrite E in H. exact H.
Qed.

Lemma strip_clean s : strip s <> [] -> clean (strip s) = true.
Proof.
  intros Hn. unfold clean. apply andb_true_iff. split.
  - unfold strip in *. apply rstrip_head; [|exact Hn].
    destruct (lstrip_head s) as [E|E]; [|exact E].
    rewrite E in Hn. now contradiction Hn.
  - unfold strip, rstrip in *. rewrite rev_involutive.
    destruct (lstrip_head (rev (lstrip s))) as [E|E]; [|exact E].
    rewrite E in Hn. now contradiction Hn.
Qed.

Lemma strip_id s : clean s = true -> strip s = s.
Proof.
  intros H. unfold strip.
  rewrite (lstrip_id _ (clean_head _ H)).
  apply rstrip_id, (clean_last _ H).
Qed.

Lemma strip_all_space s : all_space s = true -> strip s = [].
Proof. intros H. unfold strip. now rewrite (lstrip_all_space _ H). Qed.

(** Trimming a buffer that ends in a clean string only touches its front. *)
Lemma strip_app_clean s t :
  clean t = true -> strip (s ++ t) = lstrip s ++ t.
Proof.
  intros H. unfold strip.
  rewrite (lstrip_app_head _ _ (clean_head _ H)).
  apply rstrip_id. rewrite rev_app_distr.
  apply head_nonspace_app, (clean_last _ H).
Qed.

Lemma clean_app s t : clean s = true -> clean t = true -> clean (s ++ t) = true.
Proof.
  intros Hs Ht. unfold clean. apply andb_true_iff. split.
  - apply head_nonspace_app, (clean_head _ Hs).
  - rewrite rev_app_distr. apply head_nonspace_app, (clean_last _ Ht).
Qed.

Lemma clean_app_mid s m t :
  clean s = true -> clean t = true -> clean (s ++ m ++ t) = true.
Proof.
  intros Hs Ht. unfold clean. apply andb_true_iff. split.
  - apply head_nonspace_app, (clean_head _ Hs).
  - rewrite !rev_app_distr, <- app_assoc.
    apply head_nonspace_app, (clean_last _ Ht).
Qed.

End StrFacts.

(** ** Facts about the matcher *)

Section ReFacts.

Lemma run_len_take p k s :
  (k <= run_len p s)%nat ->
  forallb p (take k s) = true /\ length (take k s) = k.
Proof.
  revert s. induction k as [|k IH]; intros s Hk; [now destruct s|].
  destruct s as [|c s]; simpl in *; [lia|].
  destruct (p c) eqn:E; [|lia].
  destruct (IH s ltac:(lia)) as [H1 H2]. simpl. rewrite H1, H2. auto.
Qed.

Lemma rep_results_in p lo hi s m g s' :
  In (m, g, s') (rep_results p lo hi s) ->
  exists k, (lo <= k <= run_len p s)%nat /\
            m = take k s /\ g = [] /\ s' = drop k s.
Proof.
  unfold rep_results. intros H. apply in_map_iff in H as [k [E Hk]].
  injection E as <- <- <-. exists k. repeat split; trivial.
  - apply in_rev, in_seq in Hk. lia.
  - apply in_rev, in_seq in Hk. unfold cap in Hk. destruct hi; lia.
Qed.

(** A way of matching splits the subject in the match and the rest. *)
Lemma rmatch_sound r : forall s m g s',
  In (m, g, s') (rmatch r s) -> s = m ++ s'.
Proof.
  induction r as [|p|p lo hi|r1 IH1 r2 IH2|r1 IH1 r2 IH2|r IH];
    intros s m g s' H; simpl in H.
  - destruct H as [[= <- <- <-]|[]]. reflexivity.
  - destruct s as [|c s]; [destruct H|].
    destruct (p c); [|destruct H].
    destruct H as [[= <- <- <-]|[]]. reflexivity.
  - apply rep_results_in in H as [k [_ [-> [_ ->]]]].
    symmetry. apply take_drop.
  - apply in_flat_map in H as [[[m1 g1] s1] [H1 H2]].
    apply in_map_iff in H2 as [[[m2 g2] s2] [E H2]].
    injection E as <- <- <-.
    rewrite (IH1 _ _ _ _ H1), (IH2 _ _ _ _ H2). now rewrite app_assoc.
  - apply in_app_or in H as [H|H]; eauto.
  - apply in_map_iff in H as [[[m1 g1] s1] [E H]].
    injection E as <- <- <-. eauto.
Qed.

Lemma re_match_sound r s m :
  re_match r s = Some m ->
  before m = [] /\ In (group0 m, groups m, after m) (rmatch r s).
Proof.
  unfold re_match. destruct (rmatch r s) as [|[[m0 g0] s0] l]; [discriminate|].
  intros [= <-]. simpl. auto.
Qed.

Lemma re_search_sound r s : forall m,
  re_search r s = Some m ->
  s = before m ++ group0 m ++ after m /\
  In (group0 m, groups m, after m) (rmatch r (group0 m ++ after m)).
Proof.
  induction s as [|c s IH]; intros m; simpl.
  - destruct (re_match r []) as [m0|] eqn:E; [|discriminate].
    intros [= <-]. apply re_match_sound in E as [Hb Hin].
    rewrite Hb. simpl. rewrite <- (rmatch_sound _ _ _ _ _ Hin). auto.
  - destruct (re_match r (c :: s)) as [m0|] eqn:E.
    + intros [= <-]. apply re_match_sound in E as [Hb Hin].
      rewrite Hb. simpl. rewrite <- (rmatch_sound _ _ _ _ _ Hin). auto.
    + destruct (re_search r s) as [m1|]; [|discriminate].
      intros [= <-]. destruct (IH m1 eq_refl) as [H1 H2].
      simpl. split; [now f_equal|exact H2].
Qed.

(** The matches of the sentence delimiter are delimiters. *)
Lemma sentence_delim_shape s m g s' :
  In (m, g, s') (rmatch sentence_delim s) -> is_delim m.
Proof.
  unfold sentence_delim. simpl. intros H.
  apply in_flat_map in H as [[[m1 g1] s1] [H1 H2]].
  apply in_map_iff in H2 as [[[m2 g2] s2] [E H2]].
  injection E as <- <- <-.
  apply rep_results_in in H1 as [k1 [Hk1 [-> [_ ->]]]].
  apply rep_results_in in H2 as [k2 [Hk2 [-> [_ ->]]]].
  destruct (run_len_take is_punct k1 s ltac:(lia)) as [Ha La].
  destruct (run_len_take is_space k2 (drop k1 s) ltac:(lia)) as [Hb Lb].
  exists (take k1 s), (take k2 (drop k1 s)). repeat split; trivial.
  - intros E. rewrite E in La. simpl in La. lia.
  - intros E. rewrite E in Lb. simpl in Lb. lia.
Qed.

Lemma sentence_delim_search s m :
  re_search sentence_delim s = Some m ->
  s = before m ++ group0 m ++ after m /\ is_delim (group0 m).
Proof.
  intros H. apply re_search_sound in H as [H1 H2].
  split; [exact H1|]. eapply sentence_delim_shape, H2.
Qed.

Lemma is_delim_nonempty d : is_delim d -> d <> [].
Proof.
  intros [a [b [-> [Ha _]]]] E. apply app_eq_nil in E as [E _]. contradiction.
Qed.

Lemma is_delim_last d : is_delim d -> head_nonspace (rev d) = false.
Proof.
  intros [a [b [-> [_ [Hb [_ Hs]]]]]]. rewrite rev_app_distr.
  destruct (rev b) as [|c r] eqn:E.
  - apply (f_equal (@rev ascii)) in E. rewrite rev_involutive in E.
    simpl in E. contradiction.
  - simpl. unfold all_space in Hs. rewrite forallb_forall in Hs.
    rewrite (Hs c); [reflexivity|]. apply in_rev. rewrite E. now left.
Qed.

(** [length s] rounds are enough for the loop of [re.split]. *)
Lemma re_split_loop_stable n : forall s,
  (length s <= n)%nat ->
  re_split_loop (S n) sentence_delim s = re_split_loop n sentence_delim s.
Proof.
  induction n as [|n IH]; intros s Hn.
  - destruct s; [|simpl in Hn; lia]. reflexivity.
  - change (re_split_loop (S (S n)) sentence_delim s)
      with (match re_search sentence_delim s with
            | Some m => before m :: re_split_loop (S n) sentence_delim (after m)
            | None => [s]
            end).
    change (re_split_loop (S n) sentence_delim s)
      with (match re_search sentence_delim s with
            | Some m => before m :: re_split_loop n sentence_delim (after m)
            | None => [s]
            end).
    destruct (re_search sentence_delim s) as [m|] eqn:E; [|reflexivity].
    f_equal. apply IH.
    apply sentence_delim_search in E as [E Hd].
    apply is_delim_nonempty in Hd.
    rewrite E in Hn. rewrite !length_app in Hn.
    destruct (group0 m); [contradiction|]. simpl in Hn. lia.
Qed.

Lemma re_split_loop_enough n s :
  (length s <= n)%nat ->
  re_split_loop n sentence_delim s = re_split sentence_delim s.
Proof.
  unfold re_split. induction 1 as [|n Hn IH]; [reflexivity|].
  rewrite <- IH. now apply re_split_loop_stable.
Qed.

(** The pieces and the delimiters between them make up the text. *)
Lemma re_split_loop_interleave n : forall s,
  exists delims,
    s = interleave (re_split_loop n sentence_delim s) delims /\
    Forall is_delim delims /\
    length (re_split_loop n sentence_delim s) = S (length delims).
Proof.
  induction n as [|n IH]; intros s; simpl.
  - exists []. auto.
  - destruct (re_search sentence_delim s) as [m|] eqn:E.
    + apply sentence_delim_search in E as [E Hd].
      destruct (IH (after m)) as [ds [H1 [H2 H3]]].
      exists (group0 m :: ds). simpl. rewrite <- H1, H3. auto.
    + exists []. auto.
Qed.

(** A text that ends outside whitespace ends in a piece that does. *)
Lemma re_split_loop_last n : forall s,
  head_nonspace (rev s) = true ->
  exists pieces p,
    re_split_loop n sentence_delim s = pieces ++ [p] /\
    head_nonspace (rev p) = true.
Proof.
  induction n as [|n IH]; intros s Hs; simpl.
  - exists [], s. auto.
  - destruct (re_search sentence_delim s) as [m|] eqn:E.
    + apply sentence_delim_search in E as [E Hd].
      assert (Ha : head_nonspace (rev (after m)) = true).
      { rewrite E, !rev_app_distr in Hs.
        destruct (rev (after m)) as [|c r] eqn:Er.
        - simpl in Hs. pose proof (is_delim_nonempty _ Hd) as Hne.
          apply is_delim_last in Hd.
          destruct (rev (group0 m)) as [|d r] eqn:Eg; simpl in *; [|congruence].
          apply (f_equal (@rev ascii)) in Eg. rewrite rev_involutive in Eg.
          contradiction.
        - exact Hs. }
      destruct (IH _ Ha) as [ps [p [H1 H2]]].
      exists (before m :: ps), p. rewrite H1. auto.
    + exists [], s. auto.
Qed.

End ReFacts.

(** ** The assembler: every chunk is an injected overlap and a run of
    sentences *)

Section Assembler.

Variable self : TextChunker.

Lemma join_snoc g s : g <> [] -> join (g ++ [s]) = join g ++ py " " ++ s.
Proof.
  induction g as [|a g IH]; [congruence|]. intros _.
  destruct g as [|b g]; [reflexivity|].
  change (join ((a :: b :: g) ++ [s]))
    with (a ++ py " " ++ join ((b :: g) ++ [s])).
  rewrite IH by congruence.
  change (join (a :: b :: g)) with (a ++ py " " ++ join (b :: g)).
  now rewrite <- !app_assoc.
Qed.

Lemma join_clean g :
  g <> [] -> Forall (fun s => clean s = true) g -> clean (join g) = true.
Proof.
  induction g as [|a g IH]; [congruence|]. intros _ H.
  apply Forall_cons_1 in H as [Ha Hg].
  destruct g as [|b g]; [exact Ha|].
  change (join (a :: b :: g)) with (a ++ py " " ++ join (b :: g)).
  apply clean_app_mid; [exact Ha|]. apply IH; [congruence|exact Hg].
Qed.

Lemma part_join_clean p : part_ok p -> clean (join (group p)) = true.
Proof. intros [H1 H2]. now apply join_clean. Qed.

Lemma strip_buffer p : part_ok p -> strip (buffer p) = render p.
Proof. intros H. apply strip_app_clean, part_join_clean, H. Qed.

Lemma truthy_buffer p : part_ok p -> truthy (buffer p) = true.
Proof.
  intros H. apply truthy_true. unfold buffer. intros E.
  apply app_eq_nil in E as [_ E].
  now apply (clean_nonempty _ (part_join_clean _ H)).
Qed.

Lemma truthy_list_snoc {A} (l : list A) x : truthy_list (l ++ [x]) = true.
Proof. now destruct l. Qed.

Lemma linked_single p : overlap p = [] -> linked self [p].
Proof.
  intros H i q Hi. destruct i as [|i]; simpl in Hi.
  - injection Hi as <-. exact H.
  - now destruct i.
Qed.

Lemma linked_snoc_new ps p q :
  linked self (ps ++ [p]) -> overlap q = injected self (Some p) ->
  linked self ((ps ++ [p]) ++ [q]).
Proof.
  intros H Hq i r Hi.
  destruct (decide (i < length (ps ++ [p]))%nat) as [Hlt|Hge].
  - rewrite lookup_app_l in Hi by exact Hlt.
    rewrite (H _ _ Hi). destruct i as [|j]; [reflexivity|].
    rewrite (lookup_app_l (ps ++ [p]) [q]) by lia. reflexivity.
  - rewrite lookup_app_r in Hi by lia.
    destruct (i - length (ps ++ [p]))%nat as [|k] eqn:E; simpl in Hi;
      [|now destruct k].
    injection Hi as <-. rewrite Hq.
    rewrite length_app in *. simpl in *.
    destruct i as [|j]; [lia|].
    assert (j = length ps) as -> by lia.
    rewrite lookup_app_l by (rewrite length_app; simpl; lia).
    rewrite lookup_app_r by lia. now rewrite Nat.sub_diag.
Qed.

Lemma linked_snoc_same ps p p' :
  linked self (ps ++ [p]) -> overlap p' = overlap p ->
  linked self (ps ++ [p']).
Proof.
  intros H Hp i r Hi.
  destruct (decide (i < length ps)%nat) as [Hlt|Hge].
  - rewrite lookup_app_l in Hi by exact Hlt.
    rewrite (H i r) by (now rewrite lookup_app_l).
    destruct i as [|j]; [reflexivity|].
    rewrite !lookup_app_l by lia. reflexivity.
  - rewrite lookup_app_r in Hi by lia.
    destruct (i - length ps)%nat as [|k] eqn:E; simpl in Hi; [|now destruct k].
    injection Hi as <-. rewrite Hp.
    rewrite (H i p).
    + destruct i as [|j]; [reflexivity|]. rewrite !lookup_app_l by lia.
      reflexivity.
    + rewrite lookup_app_r by lia. now rewrite E.
Qed.

Lemma concat_groups_snoc ps p :
  concat (map group (ps ++ [p])) = concat (map group ps) ++ group p.
Proof. rewrite map_app, concat_app. simpl. now rewrite app_nil_r. Qed.

(** One round keeps the invariant, with the sentence of the round added
    when it is not empty. *)
Lemma sentence_step_inv sents st piece :
  loop_inv self sents st ->
  loop_inv self (sents ++ (if truthy (strip piece) then [strip piece] else []))
           (sentence_step self st piece).
Proof.
  intros Hinv. unfold sentence_step. destruct st as [chunks cur].
  destruct (truthy (strip piece)) eqn:Ht; simpl negb; cbv iota.
  2:{ now rewrite app_nil_r. }
  assert (Hc : clean (strip piece) = true)
    by (apply strip_clean, truthy_true, Ht).
  set (s := strip piece) in *.
  assert (Hs : part_ok {| overlap := []; group := [s] |})
    by (split; simpl; [congruence|now constructor]).
  destruct Hinv as [[-> [= -> ->]]|[ps [p [Hl [Hok [Hcat [= -> ->]]]]]]].
  - right. exists [], {| overlap := []; group := [s] |}.
    split; [now apply linked_single|].
    split; [now constructor|]. split; [reflexivity|].
    simpl. destruct (_ >? _); reflexivity.
  - assert (Hp : part_ok p).
    { apply Forall_app in Hok as [_ Hok]. now apply Forall_inv in Hok. }
    rewrite (truthy_buffer _ Hp), (strip_buffer _ Hp).
    right. destruct (_ >? chunk_size self).
    + rewrite truthy_list_snoc. simpl andb.
      replace (map render ps ++ [render p]) with (map render (ps ++ [p]))
        by (now rewrite map_app).
      destruct (chunk_overlap self >? 0) eqn:Ho.
      * exists (ps ++ [p]),
          {| overlap := last_chars (chunk_overlap self) (buffer p) ++ py " ";
             group := [s] |}.
        split; [apply linked_snoc_new; [exact Hl|]; simpl; now rewrite Ho|].
        split.
        { apply Forall_app. split; [exact Hok|]. constructor; [|constructor].
          split; simpl; [congruence|now constructor]. }
        split; [rewrite concat_groups_snoc, Hcat; reflexivity|].
        unfold buffer. simpl. now rewrite <- app_assoc.
      * exists (ps ++ [p]), {| overlap := []; group := [s] |}.
        split; [apply linked_snoc_new; [exact Hl|]; simpl; now rewrite Ho|].
        split; [apply Forall_app; split; [exact Hok|now constructor]|].
        split; [rewrite concat_groups_snoc, Hcat; reflexivity|].
        reflexivity.
    + exists ps, {| overlap := overlap p; group := group p ++ [s] |}.
      split; [now apply (linked_snoc_same ps p)|].
      apply Forall_app in Hok as [Hps _].
      split.
      { apply Forall_app. split; [exact Hps|]. constructor; [|constructor].
        destruct Hp as [Hg Hcl]. split; simpl.
        - intros E. now apply app_eq_nil in E as [_ E].
        - apply Forall_app. split; [exact Hcl|now constructor]. }
      split.
      { rewrite concat_groups_snoc in *. simpl. rewrite <- Hcat.
        now rewrite app_assoc. }
      unfold buffer. simpl. rewrite join_snoc by apply Hp.
      now rewrite <- app_assoc.
Qed.

Lemma sentence_loop_inv pieces : forall sents st,
  loop_inv self sents st ->
  loop_inv self (sents ++ sentences_of pieces)
           (fold_left (sentence_step self) pieces st).
Proof.
  induction pieces as [|piece pieces IH]; intros sents st H; simpl.
  - unfold sentences_of. simpl. now rewrite app_nil_r.
  - apply (sentence_step_inv _ _ piece), IH in H.
    rewrite <- app_assoc in H.
    replace (sentences_of (piece :: pieces))
      with ((if truthy (strip piece) then [strip piece] else [])
              ++ sentences_of pieces); [exact H|].
    unfold sentences_of. simpl. now destruct (truthy (strip piece)).
Qed.

(** The chunks are parts: each the overlap injected after the part before
    it, trimmed, and then its sentences; the parts pack the sentences in
    order. *)
Lemma chunk_sentences_parts pieces :
  exists parts,
    linked self parts /\ Forall part_ok parts /\
    concat (map group parts) = sentences_of pieces /\
    chunk_sentences self pieces = map render parts.
Proof.
  unfold chunk_sentences.
  assert (H0 : loop_inv self [] ([], [])) by (left; auto).
  apply (sentence_loop_inv pieces) in H0. simpl in H0.
  destruct H0 as [[E ->]|[ps [p [Hl [Hok [Hcat ->]]]]]].
  - exists []. repeat split; auto. intros i q Hi. now destruct i.
  - exists (ps ++ [p]). repeat split; auto.
    assert (Hp : part_ok p).
    { apply Forall_app in Hok as [_ Hok]. now apply Forall_inv in Hok. }
    simpl. rewrite (truthy_buffer _ Hp), (strip_buffer _ Hp).
    now rewrite map_app.
Qed.

End Assembler.

(** ** The overlap between consecutive chunks *)

Section Overlap.

Lemma head_nonspace_app_l a b :
  a <> [] -> head_nonspace (a ++ b) = head_nonspace a.
Proof. destruct a; [congruence|reflexivity]. Qed.

Lemma map_lookup {A B} (f : A -> B) (l : list A) i :
  map f l !! i = option_map f (l !! i).
Proof.
  revert i. induction l as [|x l IH]; intros [|i]; simpl; auto.
Qed.

Lemma render_clean p : part_ok p -> clean (render p) = true.
Proof.
  intros H. pose proof (part_join_clean p H) as Hj.
  unfold render, clean. apply andb_true_iff. split.
  - destruct (lstrip_head (overlap p)) as [E|E].
    + rewrite E. apply (clean_head _ Hj).
    + now apply head_nonspace_app.
  - rewrite rev_app_distr. apply head_nonspace_app, (clean_last _ Hj).
Qed.

(** The buffer is the chunk behind the whitespace that trimming removes. *)
Lemma buffer_render p :
  exists ws, buffer p = ws ++ render p /\ all_space ws = true.
Proof.
  destruct (lstrip_split (overlap p)) as [ws [E H]].
  exists ws. split; [|exact H].
  unfold buffer, render. rewrite E at 1. now rewrite <- app_assoc.
Qed.

Lemma drop_nonempty (c : str) k : (k < length c)%nat -> drop k c <> [].
Proof.
  intros Hk E. apply (f_equal (@length ascii)) in E.
  rewrite length_drop in E. simpl in E. lia.
Qed.

(** The last characters of a string that ends outside whitespace do too. *)
Lemma last_chars_last n c :
  0 < n -> head_nonspace (rev c) = true ->
  head_nonspace (rev (last_chars n c)) = true.
Proof.
  intros Hn Hc. unfold last_chars.
  assert (Hne : c <> []) by (intros ->; discriminate).
  set (k := (length c - Z.to_nat n)%nat).
  assert (Hk : (k < length c)%nat).
  { destruct c; [congruence|]. subst k. simpl. lia. }
  rewrite <- (take_drop k c) in Hc. rewrite rev_app_distr in Hc.
  rewrite head_nonspace_app_l in Hc; [exact Hc|].
  intros E. apply (f_equal (@rev ascii)) in E. rewrite rev_involutive in E.
  now apply (drop_nonempty c k).
Qed.

Lemma last_chars_nonspace n c :
  0 < n -> head_nonspace (rev c) = true -> lstrip (last_chars n c) <> [].
Proof. intros Hn Hc. now apply lstrip_last_nonempty, last_chars_last. Qed.

Lemma all_space_drop ws k : all_space ws = true -> all_space (drop k ws) = true.
Proof.
  unfold all_space. rewrite !forallb_forall. intros H c Hc.
  apply H. rewrite <- (take_drop k ws). apply in_or_app. now right.
Qed.

(** Whitespace in front of a clean string does not show in its trimmed
    last characters. *)
Lemma last_chars_lstrip ws c n :
  all_space ws = true -> clean c = true ->
  lstrip (last_chars n (ws ++ c)) = lstrip (last_chars n c).
Proof.
  intros Hws Hc. unfold last_chars. rewrite length_app.
  destruct (decide (Z.to_nat n <= length c)%nat) as [Hle|Hgt].
  - rewrite drop_app_ge by lia. f_equal. f_equal. lia.
  - replace (length c - Z.to_nat n)%nat with 0%nat by lia.
    rewrite drop_app_le by lia. simpl.
    rewrite lstrip_space_app by now apply all_space_drop.
    reflexivity.
Qed.

(** What a chunk starts with when it follows the part [p]: the last
    characters of the chunk of [p], trimmed, and a space. *)
Lemma injected_trimmed self p :
  part_ok p -> chunk_overlap self > 0 ->
  lstrip (injected self (Some p)) =
  lstrip (last_chars (chunk_overlap self) (render p)) ++ py " ".
Proof.
  intros Hp Ho. simpl.
  destruct (chunk_overlap self >? 0) eqn:E; [|lia].
  destruct (buffer_render p) as [ws [Eb Hws]].
  pose proof (render_clean p Hp) as Hc.
  rewrite Eb.
  rewrite lstrip_app_nonempty; rewrite last_chars_lstrip by assumption.
  - reflexivity.
  - apply last_chars_nonspace; [lia|apply (clean_last _ Hc)].
Qed.

Lemma hd_take (s : str) k : (0 < k)%nat -> head_nonspace (take k s) = head_nonspace s.
Proof. destruct k; [lia|]. now destruct s. Qed.

End Overlap.

(** ** The claims about [chunk_by_sentences] *)

Section SentenceClaims.

(** C4: whatever the text (empty or not), the chunks of [chunk_by_sentences]
    are parts, each made of the overlap injected in front of it (trimmed with
    the chunk) and of a run of sentences joined by single spaces; with the
    injected overlaps taken away, the runs put end to end are the sentences
    of the split, in their order. *)
Theorem chunks_reconstruct_sentences (self : TextChunker) (text : str) :
  exists parts,
    linked self parts /\ Forall part_ok parts /\
    chunk_by_sentences self text = map render parts /\
    Forall2 (fun chunk p =>
               drop (length (lstrip (overlap p))) chunk = join (group p))
            (chunk_by_sentences self text) parts /\
    concat (map group parts) = sentences text.
Proof.
  destruct (chunk_sentences_parts self (re_split sentence_delim text))
    as [parts [Hl [Hok [Hcat Hch]]]].
  exists parts. unfold chunk_by_sentences, sentences.
  repeat split; trivial.
  rewrite Hch. clear. induction parts as [|p ps IH]; simpl; constructor; trivial.
  unfold render. rewrite drop_app_ge by lia.
  now rewrite Nat.sub_diag.
Qed.

(** C2, as amended: with a positive overlap [O], a chunk that follows
    another starts with the last [O] characters of that chunk (all of it when
    it is shorter), leading whitespace trimmed, then a space, then at least
    one more character; so its first [O] characters are the last [O]
    characters of the chunk before exactly when that chunk has [O]
    characters or more and the first of its last [O] is not whitespace. *)
Theorem overlap_carried (self : TextChunker) (text : str) (i : nat)
    (c d : str) :
  chunk_overlap self > 0 ->
  chunk_by_sentences self text !! i = Some c ->
  chunk_by_sentences self text !! S i = Some d ->
  (exists rest, rest <> [] /\
     d = lstrip (last_chars (chunk_overlap self) c) ++ py " " ++ rest) /\
  (first_chars (chunk_overlap self) d = last_chars (chunk_overlap self) c <->
   chunk_overlap self <= len c /\
   head_nonspace (last_chars (chunk_overlap self) c) = true).
Proof.
  intros Ho Hc Hd.
  destruct (chunk_sentences_parts self (re_split sentence_delim text))
    as [parts [Hl [Hok [_ Hch]]]].
  unfold chunk_by_sentences in Hc, Hd. rewrite Hch, map_lookup in Hc, Hd.
  destruct (parts !! i) as [p|] eqn:Ep; [|discriminate].
  destruct (parts !! S i) as [q|] eqn:Eq; [|discriminate].
  simpl in Hc, Hd. injection Hc as <-. injection Hd as <-.
  assert (Hp : part_ok p).
  { rewrite Forall_forall in Hok. apply Hok.
    apply list_elem_of_lookup. eauto. }
  assert (Hq : part_ok q).
  { rewrite Forall_forall in Hok. apply Hok.
    apply list_elem_of_lookup. eauto. }
  pose proof (Hl _ _ Eq) as Hov. cbv iota beta in Hov. rewrite Ep in Hov.
  pose proof (render_clean p Hp) as Hcl.
  pose proof (part_join_clean q Hq) as Hj.
  set (O := chunk_overlap self) in *.
  set (L := last_chars O (render p)).
  assert (HX : lstrip L <> [])
    by (apply last_chars_nonspace; [lia|apply (clean_last _ Hcl)]).
  assert (Hd : render q = lstrip L ++ py " " ++ join (group q)).
  { unfold render at 1. rewrite Hov, (injected_trimmed self p Hp Ho).
    now rewrite <- app_assoc. }
  split.
  { exists (join (group q)). split; [apply (clean_nonempty _ Hj)|exact Hd]. }
  assert (HL : length L = Nat.min (Z.to_nat O) (length (render p))).
  { unfold L, last_chars. rewrite length_drop. lia. }
  unfold first_chars. rewrite Hd. split.
  - intros E.
    assert (Hlen : O <= len (render p)).
    { destruct (Z_le_gt_dec O (len (render p))) as [H|H]; [exact H|].
      exfalso. unfold len in H.
      assert (EL : L = render p).
      { unfold L, last_chars.
        replace (length (render p) - Z.to_nat O)%nat with 0%nat by lia.
        reflexivity. }
      apply (f_equal (@length ascii)) in E.
      rewrite length_take, !length_app, EL in E.
      rewrite (lstrip_id _ (clean_head _ Hcl)) in E.
      simpl in E. lia. }
    split; [exact Hlen|].
    destruct (head_nonspace L) eqn:EhL; [reflexivity|exfalso].
    apply (f_equal head_nonspace) in E.
    rewrite hd_take in E by lia.
    rewrite head_nonspace_app_l in E by exact HX.
    destruct (lstrip_head L) as [E0|E0]; congruence.
  - intros [Hlen Hh]. rewrite (lstrip_id _ Hh).
    unfold len in Hlen.
    rewrite take_app_length'; [reflexivity|]. rewrite HL. lia.
Qed.

End SentenceClaims.

(** ** No delimiter is left in a piece *)

Section Maximal.

Lemma run_len_length p s : (run_len p s <= length s)%nat.
Proof. induction s as [|c s IH]; simpl; [lia|]. destruct (p c); lia. Qed.

Lemma run_len_app p x y : (run_len p x <= run_len p (x ++ y))%nat.
Proof. induction x as [|c x IH]; simpl; [lia|]. destruct (p c); lia. Qed.

Lemma rep_results_intro p lo hi s k :
  (lo <= k <= cap hi (run_len p s))%nat ->
  In (take k s, [], drop k s) (rep_results p lo hi s).
Proof.
  intros Hk. unfold rep_results.
  apply (in_map (fun k => (take k s, [], drop k s))).
  apply in_rev. rewrite rev_involutive. apply in_seq. lia.
Qed.

(** When the sentence delimiter matches at the head of a string. *)
Lemma sentence_delim_matches s :
  rmatch sentence_delim s <> [] <->
  exists k1 k2,
    (1 <= k1 <= run_len is_punct s)%nat /\
    (1 <= k2 <= run_len is_space (drop k1 s))%nat.
Proof.
  split.
  - destruct (rmatch sentence_delim s) as [|[[m g] s'] l] eqn:E; [congruence|].
    intros _.
    assert (H : In (m, g, s') (rmatch sentence_delim s))
      by (rewrite E; now left).
    unfold sentence_delim in H. simpl in H.
    apply in_flat_map in H as [[[m1 g1] s1] [H1 H2]].
    apply in_map_iff in H2 as [[[m2 g2] s2] [_ H2]].
    apply rep_results_in in H1 as [k1 [Hk1 [_ [_ ->]]]].
    apply rep_results_in in H2 as [k2 [Hk2 _]].
    now exists k1, k2.
  - intros [k1 [k2 [Hk1 Hk2]]] E.
    assert (H : In (take k1 s ++ take k2 (drop k1 s), [] ++ [],
                    drop k2 (drop k1 s))
                   (rmatch sentence_delim s)); [|rewrite E in H; destruct H].
    unfold sentence_delim. simpl rmatch. apply in_flat_map.
    exists (take k1 s, [], drop k1 s).
    split; [apply rep_results_intro; simpl; lia|].
    apply (in_map (fun '(m2, g2, s2) => (take k1 s ++ m2, [] ++ g2, s2))
                  _ (take k2 (drop k1 s), [], drop k2 (drop k1 s))).
    apply rep_results_intro. simpl. lia.
Qed.

Lemma re_match_none r s : re_match r s = None <-> rmatch r s = [].
Proof.
  unfold re_match. destruct (rmatch r s) as [|[[m g] s'] l]; split;
    congruence.
Qed.

(** A match at the head of a string is one at the head of any longer
    string. *)
Lemma sentence_delim_prefix x y :
  re_match sentence_delim (x ++ y) = None ->
  re_match sentence_delim x = None.
Proof.
  rewrite !re_match_none. intros H.
  destruct (rmatch sentence_delim x) as [|r l] eqn:E; [reflexivity|exfalso].
  assert (Hx : rmatch sentence_delim x <> []) by (rewrite E; discriminate).
  apply sentence_delim_matches in Hx as [k1 [k2 [Hk1 Hk2]]].
  assert (Hxy : rmatch sentence_delim (x ++ y) <> []); [|contradiction].
  apply sentence_delim_matches. exists k1, k2.
  pose proof (run_len_app is_punct x y).
  pose proof (run_len_length is_punct x).
  split; [lia|]. rewrite drop_app_le by lia.
  pose proof (run_len_app is_space (drop k1 x) y). lia.
Qed.

(** Nothing matches before the match a search returns. *)
Lemma sentence_delim_before s : forall m,
  re_search sentence_delim s = Some m ->
  re_search sentence_delim (before m) = None.
Proof.
  induction s as [|c s IH]; intros m; cbn [re_search].
  - destruct (re_match sentence_delim []) as [m0|] eqn:E; [|discriminate].
    intros [= <-]. apply re_match_sound in E as [-> _]. reflexivity.
  - destruct (re_match sentence_delim (c :: s)) as [m0|] eqn:E.
    + intros [= <-]. apply re_match_sound in E as [-> _]. reflexivity.
    + destruct (re_search sentence_delim s) as [m1|] eqn:E1; [|discriminate].
      intros [= <-]. cbn [shift before re_search].
      pose proof (re_search_sound _ _ _ E1) as [Es _].
      rewrite Es in E. change (c :: before m1 ++ group0 m1 ++ after m1)
        with ((c :: before m1) ++ group0 m1 ++ after m1) in E.
      rewrite (sentence_delim_prefix _ _ E), (IH m1 eq_refl). reflexivity.
Qed.

Lemma re_split_loop_maximal n : forall s,
  (length s <= n)%nat ->
  Forall (fun piece => re_search sentence_delim piece = None)
         (re_split_loop n sentence_delim s).
Proof.
  induction n as [|n IH]; intros s Hn.
  - destruct s; [|simpl in Hn; lia]. now repeat constructor.
  - cbn [re_split_loop].
    destruct (re_search sentence_delim s) as [m|] eqn:E;
      [|now repeat constructor].
    constructor; [now apply (sentence_delim_before s)|].
    apply IH. apply sentence_delim_search in E as [E Hd].
    apply is_delim_nonempty in Hd.
    rewrite E in Hn. rewrite !length_app in Hn.
    destruct (group0 m); [contradiction|]. simpl in Hn. lia.
Qed.

Lemma re_split_maximal text :
  Forall (fun piece => re_search sentence_delim piece = None)
         (re_split sentence_delim text).
Proof. now apply re_split_loop_maximal. Qed.

End Maximal.

(** ** The splitter *)

Section Splitter.

(** The assembler only sees the trimmed, non-empty pieces. *)
Lemma sentence_step_strip self st piece :
  sentence_step self st piece =
  if truthy (strip piece) then sentence_step self st (strip piece) else st.
Proof.
  unfold sentence_step. destruct st as [chunks cur].
  destruct (truthy (strip piece)) eqn:E; simpl negb; cbv iota; [|reflexivity].
  rewrite (strip_id (strip piece))
    by (apply strip_clean, truthy_true, E).
  now rewrite E.
Qed.

Lemma sentence_loop_clean self pieces : forall st,
  fold_left (sentence_step self) pieces st =
  fold_left (sentence_step self) (sentences_of pieces) st.
Proof.
  induction pieces as [|piece pieces IH]; intros st; [reflexivity|].
  simpl. rewrite IH, (sentence_step_strip self st piece).
  unfold sentences_of. simpl.
  destruct (truthy (strip piece)); reflexivity.
Qed.

Lemma chunk_sentences_clean self pieces :
  chunk_sentences self pieces = chunk_sentences self (sentences_of pieces).
Proof. unfold chunk_sentences. now rewrite sentence_loop_clean. Qed.

Lemma sentences_clean text s :
  In s (sentences text) ->
  clean s = true /\
  exists piece, In piece (re_split sentence_delim text) /\ s = strip piece.
Proof.
  unfold sentences, sentences_of. intros H.
  apply List.filter_In in H as [H Ht].
  apply in_map_iff in H as [piece [<- H]].
  split; [apply strip_clean, truthy_true, Ht|eauto].
Qed.

End Splitter.

(** ** The claims about [chunk_by_sentences], on examples *)

Section SentenceExamples.

(** C1, at a failing input: with a maximum of 3 characters and no overlap,
    the text "A. BC" has the sentences "A" and "BC", neither longer than 3,
    and [chunk_by_sentences] packs them in one chunk of 4 characters: the
    space that joins them is not counted by the size test. *)
Theorem chunk_size_exceeded :
  let self := {| chunk_size := 3; chunk_overlap := 0 |} in
  sentences (py "A. BC") = [py "A"; py "BC"] /\
  Forall (fun s => len s <= chunk_size self) (sentences (py "A. BC")) /\
  chunk_by_sentences self (py "A. BC") = [py "A BC"] /\
  len (py "A BC") = 4.
Proof.
  repeat split.
  vm_compute. repeat constructor; discriminate.
Qed.

(** C2 fails as stated: with a maximum of 3 and an overlap of 2, no sentence
    of "abc. d. e" is longer than the maximum, the chunks are "abc", "bc d"
    and "d e", and the chunk after "bc d" starts with "d ", not with " d". *)
Lemma overlap_property_fails :
  let self := {| chunk_size := 3; chunk_overlap := 2 |} in
  let chunks := chunk_by_sentences self (py "abc. d. e") in
  Forall (fun s => len s <= chunk_size self) (sentences (py "abc. d. e")) /\
  ~ (forall i c d, (1 <= i)%nat ->
       chunks !! i = Some c -> chunks !! S i = Some d ->
       first_chars (chunk_overlap self) d = last_chars (chunk_overlap self) c).
Proof.
  split.
  - vm_compute. repeat constructor; discriminate.
  - intros H.
    specialize (H 1%nat (py "bc d") (py "d e") (le_n 1) eq_refl eq_refl).
    vm_compute in H. discriminate H.
Qed.

(** The amended C2 at the first two chunks of that text. *)
Lemma overlap_carried_witness :
  let self := {| chunk_size := 3; chunk_overlap := 2 |} in
  (exists rest, rest <> [] /\
     py "bc d" = lstrip (last_chars (chunk_overlap self) (py "abc"))
                   ++ py " " ++ rest) /\
  (first_chars (chunk_overlap self) (py "bc d")
     = last_chars (chunk_overlap self) (py "abc") <->
   chunk_overlap self <= len (py "abc") /\
   head_nonspace (last_chars (chunk_overlap self) (py "abc")) = true).
Proof.
  apply (overlap_carried {| chunk_size := 3; chunk_overlap := 2 |}
           (py "abc. d. e") 0 (py "abc") (py "bc d")).
  - reflexivity.
  - reflexivity.
  - reflexivity.
Defined.

(** C3 fails as stated: the first chunk of "A. B. C." is not "A.". *)
Lemma first_chunk_loses_punctuation :
  chunk_by_sentences {| chunk_size := 3; chunk_overlap := 0 |}
    (py "A. B. C.") !! 0%nat <> Some (py "A.").
Proof. vm_compute. discriminate. Qed.

(** C3, as amended: with a maximum of 3 and no overlap, "A. B. C." gives the
    chunks "A B" and "C.", none longer than 3: the split removes the
    delimiters, and only the last sentence, whose period no whitespace
    follows, keeps it.  In general the text is its pieces with delimiters
    between them, each delimiter a run of [.], [!] or [?] and then a run of
    whitespace, and no delimiter is left in a piece; the assembler takes the
    pieces trimmed, the empty ones dropped, so every sentence is a trimmed
    piece with no whitespace at either end. *)
Theorem split_on_delimiters :
  let self := {| chunk_size := 3; chunk_overlap := 0 |} in
  chunk_by_sentences self (py "A. B. C.") = [py "A B"; py "C."] /\
  sentences (py "A. B. C.") = [py "A"; py "B"; py "C."] /\
  Forall (fun c => len c <= 3) (chunk_by_sentences self (py "A. B. C.")) /\
  (forall text, exists delims,
     text = interleave (re_split sentence_delim text) delims /\
     Forall is_delim delims /\
     length (re_split sentence_delim text) = S (length delims)) /\
  (forall text,
     Forall (fun piece => re_search sentence_delim piece = None)
            (re_split sentence_delim text)) /\
  (forall self text,
     chunk_by_sentences self text = chunk_sentences self (sentences text)) /\
  (forall text s, In s (sentences text) ->
     clean s = true /\
     exists piece, In piece (re_split sentence_delim text) /\ s = strip piece).
Proof.
  split; [reflexivity|]. split; [reflexivity|].
  split; [vm_compute; repeat constructor; discriminate|].
  split; [intros text; apply re_split_loop_interleave|].
  split; [apply re_split_maximal|].
  split; [intros self text; apply chunk_sentences_clean|].
  apply sentences_clean.
Qed.

End SentenceExamples.

(** ** Sections *)

Section Sections.

Variable self : TextChunker.

Lemma section_records_block current_section current_title :
  section_records self current_section current_title =
  block current_title (chunk_by_sentences self current_section).
Proof. reflexivity. Qed.

Lemma enumerate_from_fst {A} (l : list A) : forall i,
  map fst (enumerate_from i l) =
  map (fun k => i + Z.of_nat k) (seq 0 (length l)).
Proof.
  induction l as [|x l IH]; intros i; simpl; [reflexivity|].
  rewrite IH, <- seq_shift, map_map. f_equal; [f_equal; lia|].
  apply map_ext. intros k. lia.
Qed.

Lemma enumerate_from_snd {A} (l : list A) : forall i,
  map snd (enumerate_from i l) = l.
Proof. induction l as [|x l IH]; intros i; simpl; [|rewrite IH]; reflexivity. Qed.

Lemma block_index title cs :
  map chunk_index (block title cs) = map Z.of_nat (seq 0 (length cs)).
Proof.
  unfold block. rewrite map_map.
  transitivity (map fst (enumerate_from 0 cs)).
  - apply map_ext. now intros [i c].
  - rewrite enumerate_from_fst. apply map_ext. intros k. lia.
Qed.

Lemma block_text title cs : map text (block title cs) = cs.
Proof.
  unfold block. rewrite map_map.
  transitivity (map snd (enumerate_from 0 cs)).
  - apply map_ext. now intros [i c].
  - apply enumerate_from_snd.
Qed.

Lemma block_fields title cs :
  Forall (fun r => section_title r = title /\
                   total_chunks r = Z.of_nat (length cs))
         (block title cs).
Proof.
  unfold block. apply Forall_forall. intros r Hr.
  apply list_elem_of_In, in_map_iff in Hr as [[i c] [<- _]]. auto.
Qed.

Lemma enumerate_from_bounds {A} (l : list A) : forall i k x,
  In (k, x) (enumerate_from i l) -> i <= k < i + Z.of_nat (length l).
Proof.
  induction l as [|y l IH]; intros i k x H; simpl in H; [destruct H|].
  destruct H as [[= <- <-]|H]; simpl length; [lia|].
  apply IH in H. lia.
Qed.

Lemma block_bounds title cs :
  Forall (fun r => 0 <= chunk_index r < total_chunks r) (block title cs).
Proof.
  unfold block. apply Forall_forall. intros r Hr.
  apply list_elem_of_In, in_map_iff in Hr as [[i c] [<- H]]. simpl.
  apply enumerate_from_bounds in H. lia.
Qed.

Lemma blocks_of_snoc bs b : blocks_of (bs ++ [b]) = blocks_of bs ++ block (fst b) (snd b).
Proof. unfold blocks_of. rewrite flat_map_app. simpl. now rewrite app_nil_r. Qed.

Lemma first_chars_len n (s : str) : 0 <= n -> len (first_chars n s) <= n.
Proof. intros H. unfold len, first_chars. rewrite length_take. lia. Qed.

Lemma line_step_blocks ms bs cur title line :
  Forall (fun b => len (fst b) <= 100) bs -> len title <= 100 ->
  exists bs' cur' title',
    line_step self ms (blocks_of bs, cur, title) line
      = (blocks_of bs', cur', title') /\
    Forall (fun b => len (fst b) <= 100) bs' /\ len title' <= 100.
Proof.
  intros Hbs Ht. unfold line_step.
  destruct (negb (truthy (strip line))); [now exists bs, cur, title|].
  destruct (is_section_header ms (strip line) && truthy cur).
  - exists (bs ++ [(title, chunk_by_sentences self cur)]),
      (strip line), (first_chars 100 (strip line)).
    rewrite blocks_of_snoc, section_records_block. split; [reflexivity|].
    split; [|now apply first_chars_len].
    apply Forall_app. split; [exact Hbs|]. now repeat constructor.
  - now exists bs, (cur ++ py (String "010" "") ++ strip line), title.
Qed.

Lemma line_loop_blocks ms lines : forall bs cur title,
  Forall (fun b => len (fst b) <= 100) bs -> len title <= 100 ->
  exists bs' cur' title',
    fold_left (line_step self ms) lines (blocks_of bs, cur, title)
      = (blocks_of bs', cur', title') /\
    Forall (fun b => len (fst b) <= 100) bs' /\ len title' <= 100.
Proof.
  induction lines as [|line lines IH]; intros bs cur title Hbs Ht;
    cbn [fold_left].
  - now exists bs, cur, title.
  - destruct (line_step_blocks ms bs cur title line Hbs Ht)
      as [bs1 [cur1 [title1 [E [H1 H2]]]]].
    rewrite E. now apply IH.
Qed.

Lemma chunk_by_sections_blocks text markers :
  exists bs,
    chunk_by_sections self text markers = blocks_of bs /\
    Forall (fun b => len (fst b) <= 100) bs.
Proof.
  unfold chunk_by_sections. cbv zeta.
  set (ms := match markers with None => default_markers | Some m => m end).
  destruct (line_loop_blocks ms (split_char "010" text) [] [] (py "Introduction"))
    as [bs [cur [title [E [H1 H2]]]]]; [constructor|vm_compute; discriminate|].
  change (blocks_of []) with (@nil section_chunk) in E.
  unfold line_finish. unfold str in *. rewrite E.
  destruct (truthy cur).
  - exists (bs ++ [(title, chunk_by_sentences self cur)]).
    rewrite blocks_of_snoc, section_records_block. split; [reflexivity|].
    apply Forall_app. split; [exact H1|]. now repeat constructor.
  - now exists bs.
Qed.

(** Without a header line the loop only grows the first section. *)
Lemma line_loop_plain ms lines : forall cur title,
  (forall line, In line (sentences_of lines) -> is_section_header ms line = false) ->
  fold_left (line_step self ms) lines ([], cur, title) =
  ([], cur ++ flat_map (fun line => py (String "010" "") ++ line)
                       (sentences_of lines), title).
Proof.
  induction lines as [|line lines IH]; intros cur title H; cbn [fold_left].
  - unfold sentences_of. simpl. now rewrite app_nil_r.
  - unfold sentences_of in *. cbn [map List.filter] in *.
    unfold line_step at 2.
    destruct (truthy (strip line)) eqn:E; simpl negb; cbv iota.
    + rewrite (H (strip line)) by now left. simpl andb. cbv iota.
      rewrite IH by (intros l Hl; apply H; now right).
      cbn [flat_map]. now rewrite <- !app_assoc.
    + now apply IH.
Qed.

End Sections.

(** ** Texts of whitespace, and texts that end outside it *)

Section Blank.

Lemma all_space_app a b :
  all_space (a ++ b) = all_space a && all_space b.
Proof. apply forallb_app. Qed.

Lemma re_split_loop_all_space r n : forall s,
  all_space s = true ->
  Forall (fun p => all_space p = true) (re_split_loop n r s).
Proof.
  induction n as [|n IH]; intros s Hs; simpl; [now repeat constructor|].
  destruct (re_search r s) as [m|] eqn:E; [|now repeat constructor].
  apply re_search_sound in E as [E _]. rewrite E, !all_space_app in Hs.
  apply andb_true_iff in Hs as [Hb Hs]. apply andb_true_iff in Hs as [_ Ha].
  constructor; [exact Hb|now apply IH].
Qed.

Lemma split_char_all_space sep s :
  all_space s = true ->
  Forall (fun p => all_space p = true) (split_char sep s).
Proof.
  induction s as [|c s IH]; simpl; [now repeat constructor|].
  intros H. apply andb_true_iff in H as [Hc Hs]. specialize (IH Hs).
  destruct (eqb_char c sep); [now constructor|].
  destruct (split_char sep s) as [|piece rest].
  { constructor; [simpl; now rewrite Hc|constructor]. }
  apply Forall_cons_1 in IH as [Hp Hr].
  constructor; [|exact Hr]. simpl. now rewrite Hc.
Qed.

Lemma sentences_of_blank pieces :
  Forall (fun p => all_space p = true) pieces -> sentences_of pieces = [].
Proof.
  unfold sentences_of. induction 1 as [|p pieces Hp _ IH]; [reflexivity|].
  simpl. now rewrite (strip_all_space _ Hp).
Qed.

Lemma chunk_by_sentences_blank self text :
  all_space text = true -> chunk_by_sentences self text = [].
Proof.
  intros H. unfold chunk_by_sentences. rewrite chunk_sentences_clean.
  rewrite sentences_of_blank; [reflexivity|].
  now apply re_split_loop_all_space.
Qed.

Lemma line_loop_blank self ms lines : forall st,
  Forall (fun p => all_space p = true) lines ->
  fold_left (line_step self ms) lines st = st.
Proof.
  induction lines as [|line lines IH]; intros st H; cbn [fold_left];
    [reflexivity|].
  apply Forall_cons_1 in H as [Hl H]. rewrite <- (IH st H) at 2.
  f_equal. unfold line_step. destruct st as [[chunks cur] title].
  now rewrite (strip_all_space _ Hl).
Qed.

Lemma chunk_by_sections_blank self text markers :
  all_space text = true -> chunk_by_sections self text markers = [].
Proof.
  intros H. unfold chunk_by_sections. cbv zeta.
  rewrite line_loop_blank by now apply split_char_all_space.
  reflexivity.
Qed.

Lemma lstrip_rev_head s :
  lstrip s <> [] -> head_nonspace (rev (lstrip s)) = head_nonspace (rev s).
Proof.
  intros H. destruct (lstrip_split s) as [ws [E _]].
  rewrite E at 2. rewrite rev_app_distr. symmetry.
  apply head_nonspace_app_l. intros E'.
  apply (f_equal (@rev ascii)) in E'. rewrite rev_involutive in E'.
  contradiction.
Qed.

Lemma strip_nonblank s : head_nonspace (rev s) = true -> strip s <> [].
Proof.
  intros H. pose proof (lstrip_last_nonempty s H) as Hl.
  unfold strip. rewrite rstrip_id; [exact Hl|].
  now rewrite lstrip_rev_head.
Qed.

(** A text that ends outside whitespace has a last sentence. *)
Lemma sentences_nonblank text :
  head_nonspace (rev text) = true -> sentences text <> [].
Proof.
  intros H. unfold sentences, re_split.
  destruct (re_split_loop_last (length text) text H) as [ps [p [E Hp]]].
  rewrite E. unfold sentences_of. rewrite map_app, List.filter_app. simpl.
  destruct (truthy (strip p)) eqn:Et.
  - intros E'. now apply app_eq_nil in E' as [_ E'].
  - apply truthy_false in Et. now apply strip_nonblank in Hp.
Qed.

Lemma chunk_by_sentences_nonblank self text :
  head_nonspace (rev text) = true -> chunk_by_sentences self text <> [].
Proof.
  intros H. apply sentences_nonblank in H.
  destruct (chunk_sentences_parts self (re_split sentence_delim text))
    as [parts [_ [_ [Hcat Hch]]]].
  unfold chunk_by_sentences. rewrite Hch.
  destruct parts; [|discriminate]. simpl in Hcat.
  unfold sentences in H. congruence.
Qed.

(** The body of a document with a line that counts ends outside
    whitespace. *)
Lemma body_of_last text :
  content_lines text <> [] -> head_nonspace (rev (body_of text)) = true.
Proof.
  unfold body_of. intros H.
  destruct (exists_last H) as [ls [l E]].
  assert (Hl : clean l = true).
  { assert (Hin : In l (content_lines text))
      by (rewrite E; apply in_or_app; right; now left).
    unfold content_lines in Hin. apply List.filter_In in Hin as [Hin Ht].
    apply in_map_iff in Hin as [x [<- _]].
    apply strip_clean, truthy_true, Ht. }
  rewrite E, flat_map_app. cbn [flat_map].
  rewrite app_nil_r, !rev_app_distr, <- !app_assoc.
  apply head_nonspace_app, (clean_last _ Hl).
Qed.

End Blank.

(** ** The claims about [chunk_by_sections] *)

Section SectionClaims.

(** C5: when no line that counts is a header (for the default markers or
    for any given ones) and one line counts at least, the records of
    [chunk_by_sections] are those of one section titled "Introduction" whose
    body holds every such line in order; there is a record at least, every
    record carries that title, the texts of the records are the chunks of the
    body, and these pack all its sentences in order. *)
Theorem no_heading_single_section (self : TextChunker) (text : str)
    (markers : option (list str)) :
  (forall line, In line (content_lines text) ->
     is_section_header
       (match markers with Some ms => ms | None => default_markers end)
       line = false) ->
  content_lines text <> [] ->
  chunk_by_sections self text markers
    = block (py "Introduction") (chunk_by_sentences self (body_of text)) /\
  chunk_by_sections self text markers <> [] /\
  Forall (fun r => section_title r = py "Introduction")
         (chunk_by_sections self text markers) /\
  map Chunking.text (chunk_by_sections self text markers)
    = chunk_by_sentences self (body_of text) /\
  exists parts,
    chunk_by_sentences self (body_of text) = map render parts /\
    concat (map group parts) = sentences (body_of text).
Proof.
  intros Hplain Hsome.
  assert (E : chunk_by_sections self text markers
              = block (py "Introduction")
                      (chunk_by_sentences self (body_of text))).
  { unfold chunk_by_sections. cbv zeta.
    rewrite line_loop_plain by exact Hplain.
    change (line_finish self ([], body_of text, py "Introduction")
            = block (py "Introduction")
                    (chunk_by_sentences self (body_of text))).
    pose proof (body_of_last text Hsome) as Hb.
    unfold line_finish.
    destruct (body_of text) eqn:Eb; [discriminate|]. reflexivity. }
  pose proof (chunk_by_sentences_nonblank self _ (body_of_last text Hsome))
    as Hne.
  rewrite E. split; [reflexivity|]. split.
  { intros E'. apply (f_equal (map Chunking.text)) in E'.
    rewrite block_text in E'. contradiction. }
  split.
  { eapply Forall_impl; [apply block_fields|]. now intros r [H _]. }
  split; [apply block_text|].
  destruct (chunk_sentences_parts self (re_split sentence_delim (body_of text)))
    as [parts [_ [_ [Hcat Hch]]]].
  exists parts. split; assumption.
Qed.

(** The text "Hello world. More text" on one line and "Last line" on the
    next has no header line, and its records are those of one section. *)
Lemma no_heading_single_section_witness :
  let self := {| chunk_size := 1000; chunk_overlap := 200 |} in
  let text := py ("Hello world. More text" ++ String "010" "Last line") in
  chunk_by_sections self text None
    = block (py "Introduction") (chunk_by_sentences self (body_of text)) /\
  chunk_by_sections self text None <> [] /\
  Forall (fun r => section_title r = py "Introduction")
         (chunk_by_sections self text None) /\
  map Chunking.text (chunk_by_sections self text None)
    = chunk_by_sentences self (body_of text) /\
  exists parts,
    chunk_by_sentences self (body_of text) = map render parts /\
    concat (map group parts) = sentences (body_of text).
Proof.
  apply (no_heading_single_section
           {| chunk_size := 1000; chunk_overlap := 200 |}
           (py ("Hello world. More text" ++ String "010" "Last line")) None).
  - vm_compute. intros line [<-|[<-|[]]]; reflexivity.
  - vm_compute. discriminate.
Defined.

(** C10: the records of [chunk_by_sections] are the records of a sequence of
    sections, one block after the other; in a block every record carries the
    title and the number of chunks of its section, and the indices run from
    0 to that number less one in order; no title is longer than 100
    characters.  So every record has [0 <= chunk_index < total_chunks],
    [total_chunks >= 1] and a title of 100 characters at most. *)
Theorem section_records_indexed (self : TextChunker) (text : str)
    (markers : option (list str)) :
  (exists bs,
     chunk_by_sections self text markers = blocks_of bs /\
     Forall (fun b =>
               len (fst b) <= 100 /\
               map chunk_index (block (fst b) (snd b))
                 = map Z.of_nat (seq 0 (length (snd b))) /\
               Forall (fun r => section_title r = fst b /\
                                total_chunks r = Z.of_nat (length (snd b)))
                      (block (fst b) (snd b)))
            bs) /\
  Forall (fun r => 0 <= chunk_index r < total_chunks r /\
                   1 <= total_chunks r /\
                   len (section_title r) <= 100)
         (chunk_by_sections self text markers).
Proof.
  destruct (chunk_by_sections_blocks self text markers) as [bs [E Hbs]].
  split.
  - exists bs. split; [exact E|].
    eapply Forall_impl; [exact Hbs|]. intros [t cs] Ht. simpl in *.
    split; [exact Ht|]. split; [apply block_index|apply block_fields].
  - rewrite E. unfold blocks_of. apply Forall_forall. intros r Hr.
    apply list_elem_of_In, in_flat_map in Hr as [[t cs] [Hb Hr]].
    simpl in Hr. rewrite Forall_forall in Hbs.
    apply list_elem_of_In, Hbs in Hb. simpl in Hb.
    pose proof (block_bounds t cs) as H1. pose proof (block_fields t cs) as H2.
    rewrite Forall_forall in H1, H2. apply list_elem_of_In in Hr.
    specialize (H1 r Hr). destruct (H2 r Hr) as [Ht Hn].
    rewrite Ht. repeat split; try lia.
Qed.

End SectionClaims.

(** ** The claims about [extract_metadata] *)

Section Metadata.

Lemma name_snoc (dirs : Path) (x : str) : name (dirs ++ [x]) = x.
Proof. apply List.last_last. Qed.

Lemma parent_snoc (dirs : Path) (x : str) : parent (dirs ++ [x]) = dirs.
Proof. apply removelast_last. Qed.

(** The record depends on the path through its name and the name of its
    parent only. *)
Lemma extract_metadata_names (p q : Path) :
  name p = name q -> name (parent p) = name (parent q) ->
  extract_metadata p = extract_metadata q.
Proof.
  intros H1 H2.
  unfold extract_metadata, default_metadata, stem. now rewrite H1, H2.
Qed.

Ltac metadata_cases :=
  unfold extract_metadata, rbi_patterns, sebi_patterns, amfi_patterns;
  repeat case_match.

(** C6: for the file "PPT-42-Jan2024.pdf" in a directory named "SEBI",
    wherever that directory lies, the record has source "SEBI", category
    "PPT", ppt_id 42 and date "Jan2024". *)
Theorem ppt_example (dirs : Path) :
  let m := extract_metadata
             (dirs ++ [py "SEBI"; py "PPT-42-Jan2024.pdf"]) in
  m !! "source"%string = Some (VStr (py "SEBI")) /\
  m !! "category"%string = Some (VStr (py "PPT")) /\
  m !! "ppt_id"%string = Some (VInt 42) /\
  m !! "date"%string = Some (VStr (py "Jan2024")).
Proof.
  cbv zeta.
  rewrite (extract_metadata_names _ [py "SEBI"; py "PPT-42-Jan2024.pdf"]).
  - repeat split; vm_compute; reflexivity.
  - change (dirs ++ [py "SEBI"; py "PPT-42-Jan2024.pdf"])
      with (dirs ++ [py "SEBI"] ++ [py "PPT-42-Jan2024.pdf"]).
    rewrite app_assoc. apply name_snoc.
  - change (dirs ++ [py "SEBI"; py "PPT-42-Jan2024.pdf"])
      with (dirs ++ [py "SEBI"] ++ [py "PPT-42-Jan2024.pdf"]).
    rewrite app_assoc, parent_snoc. apply name_snoc.
Qed.

(** C7: when the name of the parent directory, in upper case, is none of
    "RBI", "SEBI" and "AMFI", the record has category "Other" and its topic
    is the stem of the file name with every underscore and every hyphen
    replaced by a space. *)
Theorem other_folder_defaults (file_path : Path) :
  upper (name (parent file_path)) <> py "RBI" ->
  upper (name (parent file_path)) <> py "SEBI" ->
  upper (name (parent file_path)) <> py "AMFI" ->
  extract_metadata file_path !! "category"%string = Some (VStr (py "Other")) /\
  extract_metadata file_path !! "topic"%string
    = Some (VStr (replace_char "-" " "
                    (replace_char "_" " " (stem file_path)))).
Proof.
  intros H1 H2 H3. unfold extract_metadata.
  rewrite (eqb_neq _ _ H1), (eqb_neq _ _ H2), (eqb_neq _ _ H3).
  split; reflexivity.
Qed.

(** The file "my_notes-v2.txt" in a directory named "docs". *)
Lemma other_folder_defaults_witness :
  let file_path := [py "docs"; py "my_notes-v2.txt"] in
  extract_metadata file_path !! "category"%string = Some (VStr (py "Other")) /\
  extract_metadata file_path !! "topic"%string
    = Some (VStr (replace_char "-" " "
                    (replace_char "_" " " (stem file_path)))).
Proof.
  apply (other_folder_defaults [py "docs"; py "my_notes-v2.txt"]);
    vm_compute; discriminate.
Defined.

(** The record when no heuristic applies is the one the function starts
    from. *)
Lemma extract_metadata_default (file_path : Path) :
  heuristic_matches (upper (name (parent file_path))) (name file_path) = false ->
  extract_metadata file_path = default_metadata file_path.
Proof.
  unfold heuristic_matches, extract_metadata,
    rbi_patterns, sebi_patterns, amfi_patterns.
  intros H.
  destruct (eqb (upper (name (parent file_path))) (py "RBI")).
  { apply orb_false_iff in H as [-> ->]. reflexivity. }
  destruct (eqb (upper (name (parent file_path))) (py "SEBI")).
  { apply orb_false_iff in H as [H ->]. apply orb_false_iff in H as [H ->].
    apply orb_false_iff in H as [H ->]. apply orb_false_iff in H as [-> ->].
    reflexivity. }
  destruct (eqb (upper (name (parent file_path))) (py "AMFI")).
  { apply orb_false_iff in H as [-> ->]. reflexivity. }
  reflexivity.
Qed.

(** C8: the model of the three functions is total, so none of them fails.
    On a text of whitespace only (the empty text, blank lines)
    [chunk_by_sentences] and [chunk_by_sections] return the empty list, and
    when no heuristic applies to the file name [extract_metadata] returns the
    record of defaults. *)
Theorem blank_input_and_defaults :
  (forall self, chunk_by_sentences self [] = []) /\
  (forall self markers, chunk_by_sections self [] markers = []) /\
  (forall self text,
     all_space text = true -> chunk_by_sentences self text = []) /\
  (forall self text markers,
     all_space text = true -> chunk_by_sections self text markers = []) /\
  (forall file_path,
     heuristic_matches (upper (name (parent file_path))) (name file_path)
       = false ->
     extract_metadata file_path = default_metadata file_path).
Proof.
  split; [intros self; now apply chunk_by_sentences_blank|].
  split; [intros self markers; now apply chunk_by_sections_blank|].
  split; [apply chunk_by_sentences_blank|].
  split; [apply chunk_by_sections_blank|].
  apply extract_metadata_default.
Qed.

(** A text of two blank lines, and a file of the RBI folder that no
    heuristic knows. *)
Lemma blank_input_and_defaults_witness :
  let self := {| chunk_size := 1000; chunk_overlap := 200 |} in
  let blank := py ("  " ++ String "010" (String "009" " ")) in
  let file_path := [py "data"; py "RBI"; py "circular.pdf"] in
  chunk_by_sentences self blank = [] /\
  chunk_by_sections self blank None = [] /\
  extract_metadata file_path = default_metadata file_path.
Proof.
  destruct blank_input_and_defaults as [_ [_ [H1 [H2 H3]]]].
  split; [apply H1; reflexivity|].
  split; [apply H2; reflexivity|].
  apply H3. reflexivity.
Defined.

(** C9: the model of [extract_metadata] is total; for every path the record
    has exactly the eight keys, its page number is [None], its file name is
    the last component of the path and its source is the name of the parent
    directory in upper case. *)
Theorem metadata_shape (file_path : Path) :
  dom (extract_metadata file_path) = metadata_keys /\
  extract_metadata file_path !! "page_number"%string = Some VNone /\
  extract_metadata file_path !! "filename"%string
    = Some (VStr (name file_path)) /\
  extract_metadata file_path !! "source"%string
    = Some (VStr (upper (name (parent file_path)))).
Proof.
  repeat split; metadata_cases; try reflexivity;
    vm_compute; reflexivity.
Qed.

End Metadata.

(** * Further properties *)

(** ** [chunk_by_sentences]: shape, size and number of the chunks *)

Section ChunkShape.





Lemma len_app a b : len (a ++ b) = len a + len b.
Proof. unfold len. rewrite length_app. lia. Qed.





(** Every chunk starts and ends outside whitespace. *)
Lemma chunk_by_sentences_clean (self : TextChunker) (text : str) :
  Forall (fun c => clean c = true) (chunk_by_sentences self text).
Proof.
  destruct (chunk_sentences_parts self (re_split sentence_delim text))
    as [parts [_ [Hok [_ Hch]]]].
  unfold chunk_by_sentences. rewrite Hch. clear Hch.
  induction Hok as [|p ps Hp _ IH]; simpl; constructor; [|exact IH].
  apply (render_clean p Hp).
Qed.

(** X1: no chunk of [chunk_by_sentences] is empty and none starts or ends
    with whitespace. *)
Theorem chunks_are_trimmed (self : TextChunker) (text : str) :
  Forall (fun c => c <> [] /\ strip c = c /\
                   head_nonspace c = true /\ head_nonspace (rev c) = true)
         (chunk_by_sentences self text).
Proof.
  eapply Forall_impl; [apply chunk_by_sentences_clean|].
  intros c Hc. cbv beta in Hc.
  split; [apply (clean_nonempty _ Hc)|]. split; [apply (strip_id _ Hc)|].
  split; [apply (clean_head _ Hc)|apply (clean_last _ Hc)].
Qed.


Lemma join_app g1 g2 :
  g1 <> [] -> g2 <> [] -> join (g1 ++ g2) = join g1 ++ py " " ++ join g2.
Proof.
  intros H1 H2. induction g1 as [|a g1 IH]; [congruence|].
  destruct g1 as [|b g1].
  - destruct g2; [congruence|reflexivity].
  - change (join ((a :: b :: g1) ++ g2))
      with (a ++ py " " ++ join ((b :: g1) ++ g2)).
    rewrite IH by congruence.
    change (join (a :: b :: g1)) with (a ++ py " " ++ join (b :: g1)).
    now rewrite <- !app_assoc.
Qed.

Lemma concat_nonempty {A} (gs : list (list A)) :
  gs <> [] -> Forall (fun g => g <> []) gs -> concat gs <> [].
Proof.
  intros Hne H. destruct H as [|g gs Hg _]; [congruence|].
  simpl. intros E. now apply app_eq_nil in E as [E _].
Qed.

Lemma join_concat gs :
  Forall (fun g => g <> []) gs -> join (map join gs) = join (concat gs).
Proof.
  induction 1 as [|g gs Hg Hgs IH]; [reflexivity|].
  destruct gs as [|g' gs].
  - simpl. now rewrite app_nil_r.
  - change (join (map join (g :: g' :: gs)))
      with (join g ++ py " " ++ join (map join (g' :: gs))).
    rewrite IH. change (concat (g :: g' :: gs)) with (g ++ concat (g' :: gs)).
    rewrite join_app; [reflexivity|exact Hg|].
    apply concat_nonempty; [discriminate|exact Hgs].
Qed.

(** Without overlap nothing is injected. *)
Lemma linked_no_overlap self parts :
  chunk_overlap self <= 0 -> linked self parts ->
  Forall (fun p => overlap p = []) parts.
Proof.
  intros Ho Hl. apply Forall_forall. intros p Hp.
  apply list_elem_of_lookup in Hp as [i Hi].
  rewrite (Hl _ _ Hi). unfold injected.
  destruct i; [reflexivity|]. destruct (parts !! i); [|reflexivity].
  destruct (chunk_overlap self >? 0) eqn:E; [lia|reflexivity].
Qed.

(** X3: without overlap, the chunks of [chunk_by_sentences] joined by single
    spaces are the sentences joined by single spaces: nothing is lost,
    repeated or reordered. *)
Theorem chunks_join_sentences (self : TextChunker) (text : str) :
  chunk_overlap self <= 0 ->
  join (chunk_by_sentences self text) = join (sentences text).
Proof.
  intros Ho.
  destruct (chunk_sentences_parts self (re_split sentence_delim text))
    as [parts [Hl [Hok [Hcat Hch]]]].
  unfold chunk_by_sentences, sentences. rewrite Hch, <- Hcat.
  pose proof (linked_no_overlap self parts Ho Hl) as Hov.
  rewrite <- join_concat.
  - f_equal. rewrite map_map.
    clear -Hov. induction Hov as [|p ps Hp _ IH]; [reflexivity|].
    simpl. rewrite IH. f_equal. unfold render. now rewrite Hp.
  - clear -Hok. induction Hok as [|p ps [Hp _] _ IH]; constructor; trivial.
Qed.

Lemma chunks_join_sentences_witness :
  join (chunk_by_sentences {| chunk_size := 5; chunk_overlap := 0 |}
          (py "One. Two! Three? Four"))
  = join (sentences (py "One. Two! Three? Four")).
Proof.
  apply (chunks_join_sentences {| chunk_size := 5; chunk_overlap := 0 |}).
  simpl. lia.
Defined.

(** X4: [chunk_by_sentences] never returns more chunks than the text has
    sentences, and it returns none exactly when the text has no sentence. *)
Theorem chunks_count (self : TextChunker) (text : str) :
  (length (chunk_by_sentences self text) <= length (sentences text))%nat /\
  (chunk_by_sentences self text = [] <-> sentences text = []).
Proof.
  destruct (chunk_sentences_parts self (re_split sentence_delim text))
    as [parts [_ [Hok [Hcat Hch]]]].
  unfold chunk_by_sentences, sentences. rewrite Hch, <- Hcat, length_map.
  clear Hch Hcat. split.
  - induction Hok as [|p ps [Hp _] _ IH]; simpl; [lia|].
    rewrite length_app. destruct (group p); [congruence|]. simpl. lia.
  - destruct Hok as [|p ps [Hp _] _]; simpl; [tauto|].
    split; [discriminate|]. intros E. now apply app_eq_nil in E as [E _].
Qed.

(** X5: a text of one sentence gives that sentence as its only chunk,
    whatever the maximum size and the overlap: a sentence is never cut. *)
Theorem single_sentence_kept (self : TextChunker) (text s : str) :
  sentences text = [s] -> chunk_by_sentences self text = [s].
Proof.
  intros H. unfold chunk_by_sentences. rewrite chunk_sentences_clean.
  fold (sentences text). rewrite H.
  assert (Hc : clean s = true).
  { apply (sentences_clean text). rewrite H. now left. }
  unfold chunk_sentences. cbn [fold_left]. unfold sentence_step.
  rewrite (strip_id _ Hc).
  rewrite (proj2 (truthy_true s) (clean_nonempty _ Hc)). simpl negb. cbv iota.
  assert (E : forall b : bool,
             sentence_finish (if b then ([], s) else ([], [] ++ s)) = [s]).
  { intros b. unfold sentence_finish.
    destruct b; simpl app;
      rewrite (proj2 (truthy_true s) (clean_nonempty _ Hc)), (strip_id _ Hc);
      reflexivity. }
  simpl truthy. simpl truthy_list. simpl andb. cbv iota. apply E.
Qed.

Lemma single_sentence_kept_witness :
  chunk_by_sentences {| chunk_size := 4; chunk_overlap := 2 |}
    (py "  a sentence far longer than four characters.")
  = [py "a sentence far longer than four characters."].
Proof.
  apply (single_sentence_kept {| chunk_size := 4; chunk_overlap := 2 |}).
  reflexivity.
Defined.

Lemma join_app_len g1 g2 : g1 <> [] -> len (join g1) <= len (join (g1 ++ g2)).
Proof.
  intros H. destruct g2 as [|b g2]; [rewrite app_nil_r; lia|].
  rewrite join_app by congruence. rewrite !len_app. unfold len. lia.
Qed.

(** While the sentences joined fit, the loop only grows the buffer. *)
Lemma sentence_loop_fits self rest : forall pre,
  pre <> [] -> Forall (fun s => clean s = true) (pre ++ rest) ->
  len (join (pre ++ rest)) <= chunk_size self + 1 ->
  fold_left (sentence_step self) rest ([], join pre)
  = ([], join (pre ++ rest)).
Proof.
  induction rest as [|s rest IH]; intros pre Hpre Hcl Hlen; cbn [fold_left].
  - now rewrite app_nil_r.
  - assert (Hs : clean s = true).
    { rewrite Forall_forall in Hcl. apply Hcl, list_elem_of_In, in_or_app.
      right. now left. }
    assert (Hpc : clean (join pre) = true).
    { apply join_clean; [exact Hpre|]. now apply Forall_app in Hcl as [Hcl _]. }
    assert (Hstep : sentence_step self ([], join pre) s
                    = ([], join (pre ++ [s]))).
    { unfold sentence_step. rewrite (strip_id _ Hs).
      rewrite (proj2 (truthy_true s) (clean_nonempty _ Hs)).
      simpl negb. cbv iota.
      assert (Hle : len (join (pre ++ [s])) <= chunk_size self + 1).
      { change (s :: rest) with ([s] ++ rest) in Hlen.
        rewrite app_assoc in Hlen.
        pose proof (join_app_len (pre ++ [s]) rest) as Hj.
        assert (pre ++ [s] <> [])
          by (intros E; now apply app_eq_nil in E as [_ E]).
        specialize (Hj H). lia. }
      rewrite join_snoc in Hle by exact Hpre.
      rewrite !len_app in Hle. change (len (py " ")) with 1 in Hle.
      destruct (len (join pre) + len s >? chunk_size self) eqn:Et; [lia|].
      rewrite (proj2 (truthy_true _) (clean_nonempty _ Hpc)).
      now rewrite join_snoc by exact Hpre. }
    rewrite Hstep.
    change (s :: rest) with ([s] ++ rest) in *. rewrite app_assoc in *.
    apply IH; [|exact Hcl|exact Hlen].
    intros E. now apply app_eq_nil in E as [_ E].
Qed.

(** X6: when the sentences of the text, joined by single spaces, take at
    most [chunk_size + 1] characters, [chunk_by_sentences] returns them as
    one chunk, whatever the overlap. *)
Theorem short_text_one_chunk (self : TextChunker) (text : str) :
  sentences text <> [] ->
  len (join (sentences text)) <= chunk_size self + 1 ->
  chunk_by_sentences self text = [join (sentences text)].
Proof.
  intros Hne Hlen. unfold chunk_by_sentences. rewrite chunk_sentences_clean.
  fold (sentences text).
  assert (Hcl : Forall (fun s => clean s = true) (sentences text)).
  { apply Forall_forall. intros s Hs. apply list_elem_of_In in Hs.
    now apply (sentences_clean text). }
  destruct (sentences text) as [|s rest]; [congruence|].
  unfold chunk_sentences. cbn [fold_left].
  assert (Hs : clean s = true) by now apply Forall_cons_1 in Hcl as [Hs _].
  assert (Hfirst : sentence_step self ([], []) s = ([], join [s])).
  { unfold sentence_step. rewrite (strip_id _ Hs).
    rewrite (proj2 (truthy_true s) (clean_nonempty _ Hs)).
    simpl. now destruct (_ >? _). }
  rewrite Hfirst.
  rewrite (sentence_loop_fits self rest [s]); [|discriminate|exact Hcl|exact Hlen].
  unfold sentence_finish. change ([s] ++ rest) with (s :: rest).
  assert (Hj : clean (join (s :: rest)) = true)
    by (apply join_clean; [discriminate|exact Hcl]).
  rewrite (proj2 (truthy_true _) (clean_nonempty _ Hj)), (strip_id _ Hj).
  reflexivity.
Qed.

Lemma short_text_one_chunk_witness :
  chunk_by_sentences {| chunk_size := 17; chunk_overlap := 5 |}
    (py "Save. Invest! Retire")
  = [join (sentences (py "Save. Invest! Retire"))].
Proof.
  apply (short_text_one_chunk {| chunk_size := 17; chunk_overlap := 5 |}).
  - vm_compute. discriminate.
  - vm_compute. discriminate.
Defined.

End ChunkShape.

(** ** [chunk_by_sections]: what is produced, and under which titles *)

Section SectionShape.

Variable self : TextChunker.

Lemma clean_line_last cur line :
  clean line = true ->
  head_nonspace (rev (cur ++ py (String "010" "") ++ line)) = true.
Proof.
  intros H. rewrite !rev_app_distr, <- !app_assoc.
  apply head_nonspace_app, (clean_last _ H).
Qed.

Lemma block_cons title c cs :
  exists r rest,
    block title (c :: cs) = r :: rest /\
    section_title r = title /\ chunk_index r = 0 /\ 1 <= total_chunks r.
Proof.
  unfold block. simpl enumerate_from. simpl map.
  eexists _, _. split; [reflexivity|]. simpl. repeat split. lia.
Qed.

Lemma starts_with_introduction_app chunks more :
  starts_with_introduction chunks -> starts_with_introduction (chunks ++ more).
Proof.
  intros [r [rest [-> H]]]. exists r, (rest ++ more). auto.
Qed.

(** Closing a section whose body ends outside whitespace. *)
Lemma close_section_starts chunks cur title :
  head_nonspace (rev cur) = true ->
  (chunks = [] /\ title = py "Introduction")
  \/ starts_with_introduction chunks ->
  starts_with_introduction (chunks ++ section_records self cur title).
Proof.
  intros Hcur [[-> ->]|H]; [|now apply starts_with_introduction_app].
  rewrite section_records_block. simpl app.
  pose proof (chunk_by_sentences_nonblank self cur Hcur) as Hne.
  destruct (chunk_by_sentences self cur) as [|c cs]; [congruence|].
  destruct (block_cons (py "Introduction") c cs) as [r [rest [E H]]].
  exists r, rest. auto.
Qed.

Lemma sentences_of_snoc seen line :
  sentences_of (seen ++ [line]) =
  sentences_of seen ++ (if truthy (strip line) then [strip line] else []).
Proof. unfold sentences_of. now rewrite map_app, List.filter_app. Qed.

Lemma line_step_inv ms seen st line :
  lines_inv seen st -> lines_inv (seen ++ [line]) (line_step self ms st line).
Proof.
  destruct st as [[chunks cur] title]. unfold lines_inv, line_step.
  rewrite sentences_of_snoc.
  destruct (truthy (strip line)) eqn:Ht; simpl negb; cbv iota.
  2:{ now rewrite app_nil_r. }
  assert (Hc : clean (strip line) = true)
    by (apply strip_clean, truthy_true, Ht).
  assert (Hne : sentences_of seen ++ [strip line] <> [])
    by (intros E; now apply app_eq_nil in E as [_ E]).
  intros [[_ [-> [-> ->]]]|[_ [Hcur Hch]]].
  - rewrite andb_false_r. right. split; [exact Hne|].
    split; [now apply clean_line_last|]. now left.
  - destruct (is_section_header ms (strip line) && truthy cur).
    + right. split; [exact Hne|]. split; [apply (clean_last _ Hc)|].
      right. now apply close_section_starts.
    + right. split; [exact Hne|]. split; [now apply clean_line_last|].
      exact Hch.
Qed.

Lemma line_loop_inv ms lines : forall seen st,
  lines_inv seen st ->
  lines_inv (seen ++ lines) (fold_left (line_step self ms) lines st).
Proof.
  induction lines as [|line lines IH]; intros seen st H; cbn [fold_left].
  - now rewrite app_nil_r.
  - apply (line_step_inv ms seen st line), IH in H.
    now rewrite <- app_assoc in H.
Qed.

Lemma chunk_by_sections_inv text markers :
  (content_lines text = [] /\ chunk_by_sections self text markers = [])
  \/
  (content_lines text <> [] /\
   starts_with_introduction (chunk_by_sections self text markers)).
Proof.
  unfold chunk_by_sections. cbv zeta.
  set (ms := match markers with Some m => m | None => default_markers end).
  assert (H0 : lines_inv [] ([], [], py "Introduction"))
    by (left; auto).
  apply (line_loop_inv ms (split_char "010" text)) in H0. simpl app in H0.
  unfold str in *.
  destruct (fold_left _ _ _) as [[chunks cur] title].
  unfold lines_inv in H0. unfold line_finish.
  destruct H0 as [[E [-> [-> _]]]|[Hne [Hcur Hch]]].
  - left. auto.
  - right. split; [exact Hne|].
    destruct cur as [|c cur]; [discriminate|]. simpl truthy. cbv iota.
    now apply close_section_starts.
Qed.

(** X7: [chunk_by_sections] returns no record exactly when the text has no
    line that counts (no line with a character that is not whitespace). *)
Theorem no_records_iff_no_content (text : str) (markers : option (list str)) :
  chunk_by_sections self text markers = [] <-> content_lines text = [].
Proof.
  destruct (chunk_by_sections_inv text markers)
    as [[H1 H2]|[H1 [r [rest [H2 _]]]]]; split; intros H;
    try assumption; try contradiction.
  rewrite H2 in H. discriminate.
Qed.

(** X8: when the text has a line that counts, the first record of
    [chunk_by_sections] belongs to the section "Introduction" and has index
    0, also when the first such line is a header: a header only opens a
    section once a section has a body. *)
Theorem first_record_is_introduction (text : str)
    (markers : option (list str)) :
  content_lines text <> [] ->
  exists r rest,
    chunk_by_sections self text markers = r :: rest /\
    section_title r = py "Introduction" /\
    chunk_index r = 0 /\ 1 <= total_chunks r.
Proof.
  intros H. destruct (chunk_by_sections_inv text markers) as [[H1 _]|[_ H2]];
    [contradiction|exact H2].
Qed.

Lemma line_step_titles ms text bs cur title line :
  (truthy (strip line) = true -> In (strip line) (content_lines text)) ->
  Forall (fun b => title_of ms text (fst b)) bs -> title_of ms text title ->
  exists bs' cur' title',
    line_step self ms (blocks_of bs, cur, title) line
      = (blocks_of bs', cur', title') /\
    Forall (fun b => title_of ms text (fst b)) bs' /\
    title_of ms text title'.
Proof.
  intros Hin Hbs Ht. unfold line_step.
  destruct (truthy (strip line)) eqn:E; simpl negb; cbv iota;
    [|now exists bs, cur, title].
  destruct (is_section_header ms (strip line)) eqn:Eh; simpl andb;
    [destruct (truthy cur)|]; cbv iota.
  - exists (bs ++ [(title, chunk_by_sentences self cur)]),
      (strip line), (first_chars 100 (strip line)).
    rewrite blocks_of_snoc, section_records_block. split; [reflexivity|].
    split.
    + apply Forall_app. split; [exact Hbs|].
      constructor; [exact Ht|constructor].
    + right. exists (strip line). auto.
  - now exists bs, (cur ++ py (String "010" "") ++ strip line), title.
  - now exists bs, (cur ++ py (String "010" "") ++ strip line), title.
Qed.

Lemma line_loop_titles ms text lines : forall bs cur title,
  (forall line, In line (sentences_of lines) -> In line (content_lines text)) ->
  Forall (fun b => title_of ms text (fst b)) bs -> title_of ms text title ->
  exists bs' cur' title',
    fold_left (line_step self ms) lines (blocks_of bs, cur, title)
      = (blocks_of bs', cur', title') /\
    Forall (fun b => title_of ms text (fst b)) bs' /\
    title_of ms text title'.
Proof.
  induction lines as [|line lines IH]; intros bs cur title Hin Hbs Ht;
    cbn [fold_left].
  - now exists bs, cur, title.
  - assert (Hl : truthy (strip line) = true ->
                 In (strip line) (content_lines text)).
    { intros E. apply Hin. unfold sentences_of. simpl. rewrite E. now left. }
    destruct (line_step_titles ms text bs cur title line Hl Hbs Ht)
      as [bs1 [cur1 [title1 [E [H1 H2]]]]].
    rewrite E. apply IH; [|exact H1|exact H2].
    intros l Hi. apply Hin. unfold sentences_of in *. simpl.
    destruct (truthy (strip line)); [now right|exact Hi].
Qed.

(** X9: the title of every record of [chunk_by_sections] is "Introduction"
    or the first 100 characters of a line of the text, trimmed, that is a
    header for the markers in use. *)
Theorem record_titles (text : str) (markers : option (list str)) :
  Forall (fun r =>
            title_of (match markers with Some ms => ms | None => default_markers end)
                     text (section_title r))
         (chunk_by_sections self text markers).
Proof.
  unfold chunk_by_sections. cbv zeta.
  set (ms := match markers with Some m => m | None => default_markers end).
  destruct (line_loop_titles ms text (split_char "010" text) [] []
              (py "Introduction"))
    as [bs [cur [title [E [H1 H2]]]]];
    [now intros l Hl|constructor|now left|].
  change (blocks_of []) with (@nil section_chunk) in E.
  unfold line_finish. unfold str in *. rewrite E.
  assert (Hb : forall bs', Forall (fun b => title_of ms text (fst b)) bs' ->
                 Forall (fun r => title_of ms text (section_title r))
                        (blocks_of bs')).
  { intros bs' Hbs. unfold blocks_of. apply Forall_forall. intros r Hr.
    apply list_elem_of_In, in_flat_map in Hr as [[t cs] [Hb Hr]].
    rewrite Forall_forall in Hbs. apply list_elem_of_In, Hbs in Hb.
    pose proof (block_fields t cs) as Hf. rewrite Forall_forall in Hf.
    apply list_elem_of_In, Hf in Hr as [-> _]. exact Hb. }
  destruct (truthy cur).
  - rewrite section_records_block.
    change (blocks_of bs ++ block title (chunk_by_sentences self cur))
      with (blocks_of bs ++ block (fst (title, chunk_by_sentences self cur))
                                  (snd (title, chunk_by_sentences self cur))).
    rewrite <- blocks_of_snoc. apply Hb, Forall_app. split; [exact H1|].
    constructor; [exact H2|constructor].
  - now apply Hb.
Qed.

End SectionShape.

(** A document that starts with the header "Section 1": its first record
    still belongs to "Introduction". *)
Lemma first_record_is_introduction_witness :
  exists r rest,
    chunk_by_sections {| chunk_size := 1000; chunk_overlap := 200 |}
      (py ("Section 1" ++ String "010" "Scope of the rules.")) None
    = r :: rest /\
    section_title r = py "Introduction" /\
    chunk_index r = 0 /\ 1 <= total_chunks r.
Proof.
  apply (first_record_is_introduction
           {| chunk_size := 1000; chunk_overlap := 200 |}
           (py ("Section 1" ++ String "010" "Scope of the rules.")) None).
  vm_compute. discriminate.
Defined.

(** ** [extract_metadata]: the values of the fields *)

Section MetadataValues.

(** X10: the category of a record is one of the eight categories of the
    function. *)
Theorem category_enumerated (file_path : Path) :
  exists c, In c categories /\
            extract_metadata file_path !! "category"%string = Some (VStr c).
Proof.
  unfold extract_metadata, rbi_patterns, sebi_patterns, amfi_patterns.
  repeat case_match;
    (eexists; split; [|vm_compute; reflexivity]); vm_compute; tauto.
Qed.

(** X11: outside the RBI folder the audience is "General", "Beginners",
    "Advanced" or "Intermediate". *)
Theorem audience_enumerated (file_path : Path) :
  upper (name (parent file_path)) <> py "RBI" ->
  exists a, In a audiences /\
            extract_metadata file_path !! "audience"%string = Some (VStr a).
Proof.
  intros H. unfold extract_metadata. rewrite (eqb_neq _ _ H).
  unfold sebi_patterns, amfi_patterns.
  repeat case_match;
    (eexists; split; [|vm_compute; reflexivity]); vm_compute; tauto.
Qed.

Lemma audience_enumerated_witness :
  exists a, In a audiences /\
            extract_metadata [py "sebi"; py "Mutual-Fund-Advance.pdf"]
              !! "audience"%string = Some (VStr a).
Proof.
  apply (audience_enumerated [py "sebi"; py "Mutual-Fund-Advance.pdf"]).
  vm_compute. discriminate.
Defined.

Lemma int_of_digits_nonneg s : 0 <= int_of_digits s.
Proof.
  unfold int_of_digits.
  assert (H : forall acc, 0 <= acc ->
            0 <= fold_left (fun acc c => 10 * acc + Z.of_N (code c - 48)) s acc).
  { induction s as [|c s IH]; intros acc Hacc; simpl; [exact Hacc|].
    apply IH. lia. }
  apply H. lia.
Qed.

(** X12: [ppt_id] is [None] or an integer that is not negative; [ppt_id]
    and [date] are only set in a record of category "PPT" and source "SEBI";
    and a date that is set occurs in the file name. *)
Theorem ppt_fields (file_path : Path) :
  let m := extract_metadata file_path in
  (m !! "ppt_id"%string = Some VNone \/
   exists n, 0 <= n /\ m !! "ppt_id"%string = Some (VInt n)) /\
  (m !! "date"%string = Some VNone \/
   exists d a b, m !! "date"%string = Some (VStr d) /\
                 name file_path = a ++ d ++ b) /\
  (m !! "ppt_id"%string <> Some VNone \/ m !! "date"%string <> Some VNone ->
   m !! "category"%string = Some (VStr (py "PPT")) /\
   m !! "source"%string = Some (VStr (py "SEBI"))).
Proof.
  cbv zeta. unfold extract_metadata.
  destruct (eqb (upper (name (parent file_path))) (py "RBI")) eqn:E1.
  { unfold rbi_patterns.
    repeat case_match;
      (split; [left; reflexivity|]; split; [left; reflexivity|]; intros [HH|HH]; exfalso; apply HH; reflexivity). }
  destruct (eqb (upper (name (parent file_path))) (py "SEBI")) eqn:E2.
  2:{ destruct (eqb (upper (name (parent file_path))) (py "AMFI")).
      - unfold amfi_patterns.
        repeat case_match;
          (split; [left; reflexivity|]; split; [left; reflexivity|];
           intros [HH|HH]; exfalso; apply HH; reflexivity).
      - split; [left; reflexivity|]; split; [left; reflexivity|].
        intros [HH|HH]; exfalso; apply HH; reflexivity. }
  apply eqb_eq in E2. unfold default_metadata. rewrite E2.
  unfold sebi_patterns.
  destruct (startswith (upper (name file_path)) (py "PPT-")).
  2:{ repeat case_match;
        (split; [left; reflexivity|]; split; [left; reflexivity|];
         intros [HH|HH]; exfalso; apply HH; reflexivity). }
  destruct (re_match ppt_re (name file_path)) as [m1|];
    destruct (re_search date_re (name file_path)) as [m2|] eqn:Ed.
  all: split;
    [first [left; reflexivity
           |right; eexists; split; [apply int_of_digits_nonneg|reflexivity]]
    |split;
       [first [left; reflexivity
              |right; do 3 eexists; split;
               [reflexivity|exact (proj1 (re_search_sound _ _ _ Ed))]]
       |intros _; split; reflexivity]].
Qed.

Lemma replace_char_not_in a b s c :
  a <> b -> In c (replace_char a b s) -> c <> a.
Proof.
  intros Hab H. unfold replace_char in H.
  apply in_map_iff in H as [x [<- _]].
  destruct (eqb_char x a) eqn:E; [congruence|].
  intros ->. rewrite (proj2 (eqb_char_eq a a) eq_refl) in E. discriminate.
Qed.

Lemma replace_char_keeps a b s c d :
  d <> b -> (forall x, In x s -> x <> d) -> In c (replace_char a b s) -> c <> d.
Proof.
  intros Hdb Hs H. unfold replace_char in H.
  apply in_map_iff in H as [x [<- Hx]].
  destruct (eqb_char x a); [congruence|]. now apply Hs.
Qed.

(** X13: the topic of a record never holds an underscore or a hyphen. *)
Theorem topic_without_separators (file_path : Path) :
  exists t, extract_metadata file_path !! "topic"%string = Some (VStr t) /\
            forall c, In c t -> c <> "_"%char /\ c <> "-"%char.
Proof.
  assert (Hdef : forall c,
            In c (replace_char "-" " "
                    (replace_char "_" " " (stem file_path))) ->
            c <> "_"%char /\ c <> "-"%char).
  { intros c Hc. split.
    - apply (replace_char_keeps "-" " " _ c "_") in Hc;
        [exact Hc|discriminate|].
      intros x Hx. now apply (replace_char_not_in "_" " ") in Hx.
    - now apply (replace_char_not_in "-" " ") in Hc. }
  unfold extract_metadata, rbi_patterns, sebi_patterns, amfi_patterns.
  repeat case_match;
    try (eexists; split; [reflexivity|exact Hdef]).
  eexists. split; [reflexivity|].
  intros c Hc. vm_compute in Hc.
  repeat (destruct Hc as [<-|Hc]; [split; discriminate|]). destruct Hc.
Qed.

(** X14: the record depends on the path through the file name and the name
    of the parent directory in upper case only: neither the case of that
    directory's name nor the directories above it matter. *)
Theorem metadata_from_names (p q : Path) :
  name p = name q ->
  upper (name (parent p)) = upper (name (parent q)) ->
  extract_metadata p = extract_metadata q.
Proof.
  intros H1 H2.
  unfold extract_metadata, default_metadata, stem. now rewrite H1, H2.
Qed.

Lemma metadata_from_names_witness :
  extract_metadata [py "data"; py "sebi"; py "PPT-7.pdf"]
  = extract_metadata [py "SEBI"; py "PPT-7.pdf"].
Proof.
  apply (metadata_from_names [py "data"; py "sebi"; py "PPT-7.pdf"]
           [py "SEBI"; py "PPT-7.pdf"]); reflexivity.
Defined.

End MetadataValues.

(** ** [extract_metadata]: the identifier of a presentation *)

Section PptId.

Lemma lower_upper_char c : lower_char (upper_char c) = lower_char c.
Proof. destruct c as [[] [] [] [] [] [] [] []]; reflexivity. Qed.

Lemma lower_upper s : lower (upper s) = lower s.
Proof.
  unfold lower, upper. rewrite map_map. apply map_ext, lower_upper_char.
Qed.

Lemma startswith_app p s : startswith (p ++ s) p = true.
Proof.
  induction p as [|c p IH]; simpl; [now destruct s|].
  rewrite IH, andb_true_r. now apply eqb_char_eq.
Qed.

(** A literal matches, whatever the case, the text that is the literal up to
    case, and in one way only. *)
Lemma rmatch_lit_ci lit : forall pre s,
  lower pre = lower lit ->
  rmatch (lit_ci lit) (pre ++ s) = [(pre, [], s)].
Proof.
  induction lit as [|c lit IH]; intros pre s H.
  - destruct pre; [reflexivity|discriminate].
  - destruct pre as [|x pre]; [discriminate|].
    injection H as Hx Hp.
    change (lit_ci (c :: lit)) with (Seq (Chr (is_char_ci c)) (lit_ci lit)).
    cbn [rmatch app]. unfold is_char_ci at 1. rewrite Hx.
    rewrite (proj2 (eqb_char_eq _ _) eq_refl). cbn [flat_map].
    rewrite (IH pre s Hp). reflexivity.
Qed.

Lemma run_len_run p d r :
  forallb p d = true ->
  match r with c :: _ => p c | [] => false end = false ->
  run_len p (d ++ r) = length d.
Proof.
  intros Hd Hr. induction d as [|c d IH]; simpl in *.
  - destruct r as [|c r]; [reflexivity|]. simpl. now rewrite Hr.
  - apply andb_true_iff in Hd as [Hc Hd]. rewrite Hc, IH; auto.
Qed.

Lemma rev_seq_head lo n :
  (lo <= n)%nat -> rev (seq lo (S n - lo)) = n :: rev (seq lo (n - lo)).
Proof.
  intros H. replace (S n - lo)%nat with (S (n - lo)) by lia.
  rewrite seq_S, rev_app_distr. simpl. f_equal. lia.
Qed.

(** A greedy quantifier first takes the whole run. *)
Lemma rep_results_greedy p lo d r :
  forallb p d = true ->
  match r with c :: _ => p c | [] => false end = false ->
  (lo <= length d)%nat ->
  exists others, rep_results p lo None (d ++ r) = (d, [], r) :: others.
Proof.
  intros Hd Hr Hlo. unfold rep_results, cap.
  rewrite (run_len_run p d r Hd Hr), (rev_seq_head lo _ Hlo). cbn [map].
  rewrite take_app_length, drop_app_length. eauto.
Qed.

Lemma re_match_ppt pre digits rest :
  upper pre = py "PPT-" ->
  digits <> [] -> forallb is_digit digits = true ->
  match rest with c :: _ => is_digit c | [] => false end = false ->
  exists m, re_match ppt_re (pre ++ digits ++ rest) = Some m /\
            Vector.group 1%nat m = digits.
Proof.
  intros Hpre Hne Hd Hr.
  assert (Hl : lower pre = lower (py "PPT-"))
    by (rewrite <- Hpre; symmetry; apply lower_upper).
  destruct (rep_results_greedy is_digit 1 digits rest Hd Hr) as [others E].
  { destruct digits; [congruence|]. simpl. lia. }
  unfold re_match, ppt_re. cbn [rmatch].
  rewrite (rmatch_lit_ci (py "PPT-") pre _ Hl). cbn [flat_map].
  rewrite E. cbn [map app]. eexists. split; reflexivity.
Qed.

(** X15: in a folder whose name is "SEBI" up to case, for a file name made
    of "PPT-" up to case, a run of digits and a rest that does not start
    with a digit, the record has category "PPT" and its [ppt_id] is the
    number the whole run of digits writes. *)
Theorem ppt_id_parsed (dirs : Path) (folder pre digits rest : str) :
  upper folder = py "SEBI" ->
  upper pre = py "PPT-" ->
  digits <> [] -> forallb is_digit digits = true ->
  match rest with c :: _ => is_digit c | [] => false end = false ->
  let m := extract_metadata (dirs ++ [folder; pre ++ digits ++ rest]) in
  m !! "category"%string = Some (VStr (py "PPT")) /\
  m !! "ppt_id"%string = Some (VInt (int_of_digits digits)).
Proof.
  intros Hf Hpre Hne Hd Hr. cbv zeta.
  set (fn := pre ++ digits ++ rest).
  assert (Hn : name (dirs ++ [folder; fn]) = fn).
  { change (dirs ++ [folder; fn]) with (dirs ++ [folder] ++ [fn]).
    rewrite app_assoc. apply name_snoc. }
  assert (Hp : name (parent (dirs ++ [folder; fn])) = folder).
  { change (dirs ++ [folder; fn]) with (dirs ++ [folder] ++ [fn]).
    rewrite app_assoc, parent_snoc. apply name_snoc. }
  unfold extract_metadata. rewrite Hn, Hp, Hf.
  change (eqb (py "SEBI") (py "RBI")) with false.
  change (eqb (py "SEBI") (py "SEBI")) with true. cbv iota.
  unfold sebi_patterns.
  assert (Hs : startswith (upper fn) (py "PPT-") = true).
  { unfold fn, upper. rewrite map_app. fold (upper pre). rewrite Hpre.
    apply startswith_app. }
  rewrite Hs.
  destruct (re_match_ppt pre digits rest Hpre Hne Hd Hr) as [m [Em Eg]].
  fold fn in Em. rewrite Em, Eg.
  destruct (re_search date_re fn); split; reflexivity.
Qed.

Lemma ppt_id_parsed_witness :
  let m := extract_metadata
             ([py "data"] ++
              [py "Sebi"; py "ppt-" ++ py "0123" ++ py "_final.pdf"]) in
  m !! "category"%string = Some (VStr (py "PPT")) /\
  m !! "ppt_id"%string = Some (VInt (int_of_digits (py "0123"))).
Proof.
  apply (ppt_id_parsed [py "data"] (py "Sebi") (py "ppt-") (py "0123")
           (py "_final.pdf")); try reflexivity.
  discriminate.
Defined.

End PptId.

(** ** [EmbeddingGenerator]: batches and failures *)

Section Batches.

Context {A : Type}.

(** A slice between bounds that are not negative. *)
Lemma py_slice_window (lo w : Z) (l : list A) :
  0 <= lo -> 0 <= w ->
  py_slice lo (lo + w) l = take (Z.to_nat w) (drop (Z.to_nat lo) l).
Proof.
  intros Hlo Hw. unfold py_slice, slice_bound.
  destruct (lo <? 0) eqn:E1; [lia|]. destruct (lo + w <? 0) eqn:E2; [lia|].
  set (n := Z.of_nat (length l)).
  destruct (Z_le_gt_dec lo n) as [Hle|Hgt].
  - rewrite (Z.min_l lo n) by lia.
    destruct (Z_le_gt_dec (lo + w) n) as [Hle'|Hgt'].
    + rewrite Z.min_l by lia. f_equal. lia.
    + rewrite Z.min_r by lia.
      rewrite (take_ge _ (Z.to_nat w)) by (rewrite length_drop; lia).
      apply take_ge. rewrite length_drop. lia.
  - rewrite !Z.min_r by lia. rewrite Z.sub_diag.
    rewrite (drop_ge l (Z.to_nat lo)) by lia. simpl. now rewrite take_nil.
Qed.

(** The windows of width [b] at [0], [b], [2b], ... *)
Lemma windows_concat (b : nat) : forall count (l : list A),
  (length l <= count * b)%nat ->
  concat (map (fun k => take b (drop (k * b) l)) (seq 0 count)) = l.
Proof.
  induction count as [|count IH]; intros l Hl.
  - destruct l; [reflexivity|simpl in Hl; lia].
  - cbn [seq map concat]. rewrite <- seq_shift, map_map.
    rewrite Nat.mul_0_l, drop_0.
    transitivity (take b l ++ drop b l); [|apply take_drop]. f_equal.
    etransitivity; [|apply (IH (drop b l)); rewrite length_drop; lia].
    f_equal. apply map_ext. intros k. now rewrite drop_drop.
Qed.

Lemma windows_sizes (b : nat) count (l : list A) :
  (0 < b)%nat -> (count * b < length l + b)%nat ->
  Forall (fun w => w <> [] /\ (length w <= b)%nat)
         (map (fun k => take b (drop (k * b) l)) (seq 0 count)).
Proof.
  intros Hb Hc. apply Forall_forall. intros w Hw.
  apply list_elem_of_In, in_map_iff in Hw as [k [<- Hk]].
  apply in_seq in Hk.
  assert (Hlen : length (take b (drop (k * b) l))
                 = Nat.min b (length l - k * b))
    by (rewrite length_take, length_drop; reflexivity).
  assert (k * b + b <= count * b)%nat by nia.
  split; [|lia]. intros E. rewrite E in Hlen. simpl in Hlen. lia.
Qed.

End Batches.

Section EmbeddingFacts.

Variable emb : Type.
Variable encode : list str -> option (list emb).
Variable openai_embedding : str -> option emb.

Lemma encode_round_none texts b idx :
  fold_left (encode_round emb encode texts b) idx None = None.
Proof. induction idx; simpl; auto. Qed.

Lemma encode_rounds texts b idx : forall acc,
  fold_left (encode_round emb encode texts b) idx (Some acc)
  = match mapM encode (map (fun i => py_slice i (i + b) texts) idx) with
    | Some rs => Some (acc ++ concat rs)
    | None => None
    end.
Proof.
  induction idx as [|i idx IH]; intros acc; cbn [fold_left map].
  - simpl. now rewrite app_nil_r.
  - unfold encode_round at 2. simpl mapM.
    destruct (encode (py_slice i (i + b) texts)) as [e|]; simpl.
    + rewrite IH.
      destruct (mapM encode _) as [rs|]; simpl; [|reflexivity].
      now rewrite <- app_assoc.
    + apply encode_round_none.
Qed.

(** The batches of a positive batch size. *)
Lemma batches_exist (texts : list str) (b : Z) :
  0 < b ->
  exists batches,
    concat batches = texts /\
    Forall (fun batch => batch <> [] /\ Z.of_nat (length batch) <= b) batches /\
    encode_batches emb encode texts b
    = match mapM encode batches with
      | Some rs => Some (concat rs)
      | None => None
      end.
Proof.
  intros Hb. unfold encode_batches, py_range.
  destruct (b =? 0) eqn:E0; [lia|]. destruct (b >? 0) eqn:E1; [|lia].
  set (n := Z.of_nat (length texts)).
  set (q := (n - 0 + b - 1) / b).
  assert (Hq1 : b * q <= n + b - 1)
    by (subst q; replace (n - 0 + b - 1) with (n + b - 1) by lia;
        apply Z.mul_div_le; lia).
  assert (Hq2 : n + b - 1 < b * Z.succ q)
    by (subst q; replace (n - 0 + b - 1) with (n + b - 1) by lia;
        apply Z.mul_succ_div_gt; lia).
  assert (Hq0 : 0 <= q) by (subst q; apply Z.div_pos; lia).
  set (bn := Z.to_nat b). set (count := Z.to_nat q).
  exists (map (fun k => take bn (drop (k * bn) texts)) (seq 0 count)).
  split; [apply windows_concat; subst bn count n; nia|].
  split.
  { eapply Forall_impl.
    - apply (windows_sizes bn count texts); subst bn count n; nia.
    - intros w [H1 H2]. split; [exact H1|]. subst bn. lia. }
  rewrite encode_rounds, map_map. simpl app.
  replace (map (fun k => py_slice (0 + Z.of_nat k * b)
                           (0 + Z.of_nat k * b + b) texts) (seq 0 count))
    with (map (fun k => take bn (drop (k * bn) texts)) (seq 0 count));
    [reflexivity|].
  apply map_ext. intros k.
  rewrite py_slice_window by lia. subst bn. f_equal. f_equal. nia.
Qed.

(** X16: with a positive batch size, [_embed_with_sentence_transformers]
    encodes batches that are not empty, hold [batch_size] texts at most and,
    put end to end, are the texts in order; it returns the embeddings of the
    batches end to end when every batch is encoded, and the empty array as
    soon as one fails: never a part of the result. *)
Theorem batches_cover_texts (texts : list str) (batch_size : Z) :
  0 < batch_size ->
  exists batches,
    concat batches = texts /\
    Forall (fun batch => batch <> [] /\
                         Z.of_nat (length batch) <= batch_size) batches /\
    embed_with_sentence_transformers emb encode texts batch_size
    = match mapM encode batches with
      | Some rs => concat rs
      | None => []
      end.
Proof.
  intros Hb. destruct (batches_exist texts batch_size Hb)
    as [batches [H1 [H2 H3]]].
  exists batches. split; [exact H1|]. split; [exact H2|].
  unfold embed_with_sentence_transformers. rewrite H3.
  now destruct (mapM encode batches).
Qed.

(** X17: with a batch size of zero or less [embed_texts] returns the empty
    array from the sentence-transformers back end, whatever the texts: the
    [ValueError] of a zero step is caught, and a negative step runs no
    round. *)
Theorem no_embedding_without_batch (self : EmbeddingGenerator)
    (texts : list str) (batch_size : Z) :
  use_openai self = false -> batch_size <= 0 ->
  embed_texts emb encode openai_embedding self texts batch_size = [].
Proof.
  intros Hu Hb. unfold embed_texts. rewrite Hu.
  destruct (negb (truthy_list texts)); [reflexivity|].
  unfold embed_with_sentence_transformers, encode_batches, py_range.
  destruct (batch_size =? 0) eqn:E0; [reflexivity|].
  destruct (batch_size >? 0) eqn:E1; [lia|].
  set (n := Z.of_nat (length texts)).
  assert (Hq : (0 - n - batch_size - 1) / - batch_size <= 0).
  { assert (batch_size <> 0) by (intros ->; discriminate).
    assert ((0 - n - batch_size - 1) / - batch_size < 1); [|lia].
    apply Z.div_lt_upper_bound; subst n; lia. }
  replace (Z.to_nat ((0 - n - batch_size - 1) / - batch_size)) with 0%nat
    by lia.
  reflexivity.
Qed.

Lemma mapM_pointwise {B C} (g : B -> C) (f : B -> option C) l :
  (forall x, f x = Some (g x)) -> mapM f l = Some (map g l).
Proof.
  intros H. induction l as [|x l IH]; [reflexivity|].
  simpl. rewrite H, IH. reflexivity.
Qed.

(** X18: when the encoder embeds each text of a batch by itself, the batch
    size does not show in the result of [embed_texts]: any positive batch
    size gives the embeddings of the texts in order. *)
Theorem batching_is_transparent (f : str -> emb) (self : EmbeddingGenerator)
    (texts : list str) (batch_size : Z) :
  (forall batch, encode batch = Some (map f batch)) ->
  use_openai self = false -> 0 < batch_size ->
  embed_texts emb encode openai_embedding self texts batch_size
  = map f texts.
Proof.
  intros Hf Hu Hb. unfold embed_texts. rewrite Hu.
  destruct texts as [|t texts]; [reflexivity|]. simpl negb. cbv iota.
  destruct (batches_exist (t :: texts) batch_size Hb)
    as [batches [H1 [_ H3]]].
  unfold embed_with_sentence_transformers.
  rewrite H3, (mapM_pointwise (map f) encode batches Hf).
  rewrite <- H1. now rewrite concat_map.
Qed.

Lemma openai_round_none texts :
  fold_left (openai_round emb openai_embedding) texts None = None.
Proof. induction texts; simpl; auto. Qed.

Lemma openai_rounds texts : forall acc,
  fold_left (openai_round emb openai_embedding) texts (Some acc)
  = match mapM (fun t => openai_embedding (first_chars 8000 t)) texts with
    | Some es => Some (acc ++ es)
    | None => None
    end.
Proof.
  induction texts as [|t texts IH]; intros acc; cbn [fold_left].
  - simpl. now rewrite app_nil_r.
  - unfold openai_round at 2. simpl mapM.
    destruct (openai_embedding (first_chars 8000 t)) as [e|]; simpl.
    + rewrite IH. destruct (mapM _ texts) as [es|]; simpl; [|reflexivity].
      now rewrite <- app_assoc.
    + apply openai_round_none.
Qed.

Lemma mapM_outcome {B C} (g : B -> option C) l :
  (exists es, mapM g l = Some es /\ Forall2 (fun t e => g t = Some e) l es)
  \/ (mapM g l = None /\ Exists (fun t => g t = None) l).
Proof.
  induction l as [|t l IH].
  - left. exists []. split; [reflexivity|constructor].
  - simpl mapM. destruct (g t) as [e|] eqn:E; simpl.
    + destruct IH as [[es [-> H]]|[-> H]]; simpl.
      * left. exists (e :: es). split; [reflexivity|now constructor].
      * right. split; [reflexivity|now apply Exists_cons_tl].
    + right. split; [reflexivity|now apply Exists_cons_hd].
Qed.

(** X19: [_embed_with_openai] returns one embedding for each text, in
    order, each asked for the first 8000 characters of its text, or the
    empty array when a request fails: never a part of the result. *)
Theorem openai_all_or_nothing (texts : list str) :
  Forall2 (fun t e => openai_embedding (first_chars 8000 t) = Some e)
          texts (embed_with_openai emb openai_embedding texts)
  \/
  (embed_with_openai emb openai_embedding texts = [] /\
   Exists (fun t => openai_embedding (first_chars 8000 t) = None) texts).
Proof.
  unfold embed_with_openai. rewrite openai_rounds.
  destruct (mapM_outcome
              (fun t => openai_embedding (first_chars 8000 t)) texts)
    as [[es [-> H]]|[-> H]]; simpl; auto.
Qed.

End EmbeddingFacts.

(** Three texts in batches of two, with an encoder that embeds a text as its
    length. *)
Lemma batches_cover_texts_witness :
  let encode := fun batch : list str => Some (map (@length ascii) batch) in
  let texts := [py "a"; py "bb"; py "ccc"] in
  exists batches,
    concat batches = texts /\
    Forall (fun batch => batch <> [] /\ Z.of_nat (length batch) <= 2) batches /\
    embed_with_sentence_transformers nat encode texts 2
    = match mapM encode batches with
      | Some rs => concat rs
      | None => []
      end.
Proof.
  apply (batches_cover_texts nat
           (fun batch => Some (map (@length ascii) batch))
           [py "a"; py "bb"; py "ccc"] 2).
  reflexivity.
Defined.

Lemma no_embedding_without_batch_witness :
  embed_texts nat (fun batch => Some (map (@length ascii) batch))
    (fun t => Some (length t)) {| use_openai := false |}
    [py "a"; py "bb"; py "ccc"] 0
  = [].
Proof.
  apply (no_embedding_without_batch nat
           (fun batch => Some (map (@length ascii) batch))
           (fun t => Some (length t)) {| use_openai := false |}
           [py "a"; py "bb"; py "ccc"] 0).
  - reflexivity.
  - discriminate.
Defined.

Lemma batching_is_transparent_witness :
  embed_texts nat (fun batch => Some (map (@length ascii) batch))
    (fun t => Some (length t)) {| use_openai := false |}
    [py "a"; py "bb"; py "ccc"] 2
  = map (@length ascii) [py "a"; py "bb"; py "ccc"].
Proof.
  apply (batching_is_transparent nat
           (fun batch => Some (map (@length ascii) batch))
           (fun t => Some (length t)) (@length ascii)
           {| use_openai := false |} [py "a"; py "bb"; py "ccc"] 2).
  - intros batch. reflexivity.
  - reflexivity.
  - reflexivity.
Defined.

(** ** Headers *)

Section Headers.

Lemma startswith_inv s p :
  startswith s p = true -> exists r, s = p ++ r.
Proof.
  revert s. induction p as [|a p IH]; intros s H; [now exists s|].
  destruct s as [|b s]; [discriminate|]. simpl in H.
  apply andb_true_iff in H as [Hab H]. apply eqb_char_eq in Hab as ->.
  destruct (IH s H) as [r ->]. now exists r.
Qed.

Lemma lower_app a b : lower (a ++ b) = lower a ++ lower b.
Proof. apply map_app. Qed.

(** When the pattern of numbered headers matches. *)
Lemma numbered_matches line :
  is_Some (re_match numbered line) <->
  exists digits rest,
    digits <> [] /\ forallb is_digit digits = true /\
    line = digits ++ py "." ++ rest.
Proof.
  split.
  - intros [m Hm]. apply re_match_sound in Hm as [_ Hin].
    unfold numbered in Hin. cbn [rmatch] in Hin.
    apply in_flat_map in Hin as [[[m1 g1] s1] [H1 H2]].
    apply rep_results_in in H1 as [k [Hk [-> [_ ->]]]].
    destruct (run_len_take is_digit k line ltac:(lia)) as [Hd Hl].
    destruct (drop k line) as [|c rest] eqn:Ed; [destruct H2|].
    simpl in H2. unfold is_char in H2.
    destruct (eqb_char c ".") eqn:Ec; [|destruct H2].
    apply eqb_char_eq in Ec as ->.
    exists (take k line), rest. split; [|split; [exact Hd|]].
    + intros E. rewrite E in Hl. simpl in Hl. lia.
    + rewrite <- (take_drop k line) at 1. now rewrite Ed.
  - intros [digits [rest [Hne [Hd ->]]]].
    destruct (rep_results_greedy is_digit 1 digits (py "." ++ rest) Hd)
      as [others E]; [reflexivity| |].
    { destruct digits; [congruence|]. simpl. lia. }
    unfold re_match, numbered. cbn [rmatch]. rewrite E. simpl. eauto.
Qed.

(** X20: a line is a header exactly when it starts, up to case, with one of
    the markers, or with a run of digits and a period. *)
Theorem header_recognised (section_markers : list str) (line : str) :
  is_section_header section_markers line = true <->
  (exists marker pre rest,
     In marker section_markers /\ line = pre ++ rest /\
     lower pre = lower marker)
  \/
  (exists digits rest,
     digits <> [] /\ forallb is_digit digits = true /\
     line = digits ++ py "." ++ rest).
Proof.
  unfold is_section_header. rewrite orb_true_iff, existsb_exists.
  rewrite bool_decide_eq_true, numbered_matches.
  split; (intros [H|H]; [left|now right]).
  - destruct H as [marker [Hin Hs]].
    apply startswith_inv in Hs as [r Hr].
    exists marker, (take (length marker) line), (drop (length marker) line).
    split; [exact Hin|]. split; [now rewrite take_drop|].
    unfold lower in *. rewrite <- firstn_map, Hr.
    apply take_app_length'. symmetry. apply length_map.
  - destruct H as [marker [pre [rest [Hin [-> Hl]]]]].
    exists marker. split; [exact Hin|].
    rewrite lower_app, Hl. apply startswith_app.
Qed.

End Headers.

(** ** The audience, and the texts of the records *)

Section Audience.

Lemma rmatch_lit_ci_groups lit : forall s m g s',
  In (m, g, s') (rmatch (lit_ci lit) s) -> g = [].
Proof.
  induction lit as [|c lit IH]; intros s m g s' H.
  - simpl in H. destruct H as [[= _ <- _]|[]]. reflexivity.
  - change (lit_ci (c :: lit)) with (Seq (Chr (is_char_ci c)) (lit_ci lit)) in H.
    cbn [rmatch] in H.
    apply in_flat_map in H as [[[m1 g1] s1] [H1 H2]].
    apply in_map_iff in H2 as [[[m2 g2] s2] [E H2]].
    injection E as <- <- <-.
    destruct s as [|x s]; [destruct H1|].
    destruct (is_char_ci c x); [|destruct H1].
    destruct H1 as [[= <- <- <-]|[]]. simpl. eauto.
Qed.

Lemma forallb_sub {B} (p : B -> bool) (l l' : list B) :
  (forall x, In x l' -> In x l) -> forallb p l = true -> forallb p l' = true.
Proof.
  rewrite !forallb_forall. intros Hs H x Hx. apply H, Hs, Hx.
Qed.

Lemma lstrip_sub s x : In x (lstrip s) -> In x s.
Proof.
  destruct (lstrip_split s) as [ws [E _]]. intros H. rewrite E.
  apply in_or_app. now right.
Qed.

Lemma strip_sub s x : In x (strip s) -> In x s.
Proof.
  unfold strip, rstrip. intros H. apply in_rev in H.
  apply lstrip_sub in H. apply in_rev in H. now apply lstrip_sub.
Qed.

Lemma strip_strip s : strip (strip s) = strip s.
Proof.
  destruct (strip s) as [|c r] eqn:E; [reflexivity|].
  rewrite <- E. apply strip_id, strip_clean. rewrite E. discriminate.
Qed.

(** The audience the pattern captures. *)
Lemma audience_group s m :
  re_search audience_re s = Some m ->
  letters_and_spaces (Vector.group 1%nat m) = true.
Proof.
  intros H. apply re_search_sound in H as [_ Hin].
  unfold audience_re in Hin. cbn [rmatch] in Hin.
  apply in_flat_map in Hin as [[[m1 g1] s1] [H1 H2]].
  apply in_map_iff in H2 as [[[m2 g2] s2] [E H2]].
  apply in_flat_map in H2 as [[[m3 g3] s3] [H3 H4]].
  apply in_map_iff in H4 as [[[m4 g4] s4] [E4 H4]].
  apply in_map_iff in H4 as [[[m5 g5] s5] [E5 H5]].
  apply rmatch_lit_ci_groups in H1. subst g1.
  apply rep_results_in in H3 as [k3 [_ [_ [-> _]]]].
  apply rep_results_in in H5 as [k5 [Hk5 [-> [-> _]]]].
  injection E5 as <- <- <-. injection E4 as <- <- <-.
  injection E as _ Hg _. unfold Vector.group. rewrite <- Hg. simpl.
  now destruct (run_len_take _ k5 s3 (proj2 Hk5)) as [Hd _].
Qed.

(** X21: the audience of every record is made of letters and spaces, with
    no whitespace at either end. *)
Theorem audience_letters (file_path : Path) :
  exists a,
    extract_metadata file_path !! "audience"%string = Some (VStr a) /\
    letters_and_spaces a = true /\ strip a = a.
Proof.
  unfold extract_metadata, rbi_patterns, sebi_patterns, amfi_patterns.
  repeat case_match;
    try (eexists; split; [reflexivity|]; split; reflexivity).
  match goal with
  | E : re_search audience_re _ = Some ?m |- _ =>
      exists (strip (Vector.group 1%nat m)); split; [reflexivity|];
      split; [|apply strip_strip];
      apply (forallb_sub _ (Vector.group 1%nat m));
      [intros x; apply strip_sub|apply (audience_group _ _ E)]
  end.
Qed.

End Audience.

Section RecordTexts.

Variable self : TextChunker.

Lemma line_step_trimmed ms bs cur title line :
  Forall (fun b => Forall (fun c => c <> [] /\ strip c = c) (snd b)) bs ->
  exists bs' cur' title',
    line_step self ms (blocks_of bs, cur, title) line
      = (blocks_of bs', cur', title') /\
    Forall (fun b => Forall (fun c => c <> [] /\ strip c = c) (snd b)) bs'.
Proof.
  intros Hbs. unfold line_step.
  destruct (negb (truthy (strip line))); [now exists bs, cur, title|].
  destruct (is_section_header ms (strip line) && truthy cur).
  - exists (bs ++ [(title, chunk_by_sentences self cur)]),
      (strip line), (first_chars 100 (strip line)).
    rewrite blocks_of_snoc, section_records_block. split; [reflexivity|].
    apply Forall_app. split; [exact Hbs|]. constructor; [|constructor].
    simpl. eapply Forall_impl; [apply chunk_by_sentences_clean|].
    intros c Hc. cbv beta in Hc.
    split; [apply (clean_nonempty _ Hc)|apply (strip_id _ Hc)].
  - now exists bs, (cur ++ py (String "010" "") ++ strip line), title.
Qed.

Lemma line_loop_trimmed ms lines : forall bs cur title,
  Forall (fun b => Forall (fun c => c <> [] /\ strip c = c) (snd b)) bs ->
  exists bs' cur' title',
    fold_left (line_step self ms) lines (blocks_of bs, cur, title)
      = (blocks_of bs', cur', title') /\
    Forall (fun b => Forall (fun c => c <> [] /\ strip c = c) (snd b)) bs'.
Proof.
  induction lines as [|line lines IH]; intros bs cur title Hbs;
    cbn [fold_left].
  - now exists bs, cur, title.
  - destruct (line_step_trimmed ms bs cur title line Hbs)
      as [bs1 [cur1 [title1 [E H1]]]].
    rewrite E. now apply IH.
Qed.

(** X22: the text of every record of [chunk_by_sections] is not empty and
    has no whitespace at either end. *)
Theorem record_texts_trimmed (text : str) (markers : option (list str)) :
  Forall (fun r => Chunking.text r <> [] /\
                   strip (Chunking.text r) = Chunking.text r)
         (chunk_by_sections self text markers).
Proof.
  unfold chunk_by_sections. cbv zeta.
  set (ms := match markers with Some m => m | None => default_markers end).
  destruct (line_loop_trimmed ms (split_char "010" text) [] []
              (py "Introduction"))
    as [bs [cur [title [E H1]]]]; [constructor|].
  change (blocks_of []) with (@nil section_chunk) in E.
  unfold line_finish. unfold str in *. rewrite E.
  assert (Hb : forall bs',
            Forall (fun b => Forall (fun c => c <> [] /\ strip c = c) (snd b))
                   bs' ->
            Forall (fun r => Chunking.text r <> [] /\
                             strip (Chunking.text r) = Chunking.text r)
                   (blocks_of bs')).
  { intros bs' Hbs. unfold blocks_of. apply Forall_forall. intros r Hr.
    apply list_elem_of_In, in_flat_map in Hr as [[t cs] [Hb Hr]].
    rewrite Forall_forall in Hbs. apply list_elem_of_In, Hbs in Hb.
    simpl in Hb, Hr. rewrite Forall_forall in Hb. apply Hb.
    apply list_elem_of_In. rewrite <- (block_text t cs). now apply in_map. }
  destruct (truthy cur).
  - rewrite section_records_block.
    change (blocks_of bs ++ block title (chunk_by_sentences self cur))
      with (blocks_of bs ++ block (fst (title, chunk_by_sentences self cur))
                                  (snd (title, chunk_by_sentences self cur))).
    rewrite <- blocks_of_snoc. apply Hb, Forall_app. split; [exact H1|].
    constructor; [|constructor].
    simpl. eapply Forall_impl; [apply chunk_by_sentences_clean|].
    intros c Hc. cbv beta in Hc.
    split; [apply (clean_nonempty _ Hc)|apply (strip_id _ Hc)].
  - now apply Hb.
Qed.

End RecordTexts.
